(** * gcr.io_mirror: the image-reference rewriting of [mirrorByIssues]

    A shallow embedding of the rewriting part of [src/main.go]
    ([mirrorByIssues], lines 226-252, and the rule loading of [main],
    lines 107-122) together with the [sed] pipeline of
    [src/pull-k8s-image.sh], and the properties the specification states
    about them.

    Go strings are byte sequences: they are modelled by [string], whose
    characters ([ascii]) are 8-bit bytes.  The functions of Go's standard
    library the program calls are modelled in the modules [Utf8],
    [Unicode] and [Strings]; the regular-expression engine and
    [strings.EqualFold] (which need the full RE2 syntax and the Unicode
    case-folding tables) are an interface, [GoRuntime], with one
    executable instance for ASCII text. *)

From Stdlib Require Import Ascii NArith ZArith Lia.
From stdpp Require Import gmap strings list fin_maps.

Local Open Scope N_scope.

(** ** Bytes *)

Definition code (c : ascii) : N := N_of_ascii c.
Definition byte (n : N) : ascii := ascii_of_N n.

(** [s[n:]] and [s[:n]] on byte strings. *)
Fixpoint drop_bytes (n : nat) (s : string) : string :=
  match n, s with
  | O, _ => s
  | S _, EmptyString => EmptyString
  | S k, String _ r => drop_bytes k r
  end.

Fixpoint take_bytes (n : nat) (s : string) : string :=
  match n, s with
  | O, _ => EmptyString
  | S _, EmptyString => EmptyString
  | S k, String c r => String c (take_bytes k r)
  end.

Fixpoint rev_bytes (acc s : string) : string :=
  match s with
  | EmptyString => acc
  | String c r => rev_bytes (String c acc) r
  end.

Fixpoint map_bytes (f : ascii → ascii) (s : string) : string :=
  match s with
  | EmptyString => EmptyString
  | String c r => String (f c) (map_bytes f r)
  end.

(** ** Package [unicode/utf8] *)
Module Utf8.

Definition RuneError : N := 65533.   (* U+FFFD *)
Definition RuneSelf : N := 128.
Definition UTFMax : nat := 4.

(** The [first] table of the package: for a leading byte, the width of
    the sequence it announces and the range its second byte must lie
    in; [None] for the bytes that start no multi-byte sequence
    (ASCII and the invalid leading bytes). *)
Definition first (b : N) : option (nat * (N * N)) :=
  if b <? 194 then None                      (* 00-7F ASCII, 80-C1 invalid *)
  else if b <? 224 then Some (2%nat, (128, 191))   (* C2-DF *)
  else if b =? 224 then Some (3%nat, (160, 191))   (* E0 *)
  else if b =? 237 then Some (3%nat, (128, 159))   (* ED *)
  else if b <? 240 then Some (3%nat, (128, 191))   (* E1-EC, EE-EF *)
  else if b =? 240 then Some (4%nat, (144, 191))   (* F0 *)
  else if b <? 244 then Some (4%nat, (128, 191))   (* F1-F3 *)
  else if b =? 244 then Some (4%nat, (128, 143))   (* F4 *)
  else None.                                 (* F5-FF invalid *)

Definition continuation (b : N) : bool := (128 <=? b) && (b <=? 191).

(** [utf8.DecodeRuneInString]: the first rune of [s] and its width in
    bytes; [(RuneError, 0)] on the empty string and [(RuneError, 1)] on
    an invalid or truncated encoding. *)
Definition DecodeRuneInString (s : string) : N * nat :=
  match s with
  | EmptyString => (RuneError, 0%nat)
  | String c0 r0 =>
    let s0 := code c0 in
    if s0 <? RuneSelf then (s0, 1%nat)
    else match first s0 with
    | None => (RuneError, 1%nat)
    | Some (sz, (lo, hi)) =>
      match r0 with
      | EmptyString => (RuneError, 1%nat)
      | String c1 r1 =>
        let s1 := code c1 in
        if (s1 <? lo) || (hi <? s1) then (RuneError, 1%nat)
        else if (sz <=? 2)%nat
        then (N.lor (N.shiftl (N.land s0 31) 6) (N.land s1 63), 2%nat)
        else match r1 with
        | EmptyString => (RuneError, 1%nat)
        | String c2 r2 =>
          let s2 := code c2 in
          if negb (continuation s2) then (RuneError, 1%nat)
          else if (sz <=? 3)%nat
          then (N.lor (N.shiftl (N.land s0 15) 12)
                  (N.lor (N.shiftl (N.land s1 63) 6) (N.land s2 63)), 3%nat)
          else match r2 with
          | EmptyString => (RuneError, 1%nat)
          | String c3 _ =>
            let s3 := code c3 in
            if negb (continuation s3) then (RuneError, 1%nat)
            else (N.lor (N.shiftl (N.land s0 7) 18)
                    (N.lor (N.shiftl (N.land s1 63) 12)
                       (N.lor (N.shiftl (N.land s2 63) 6) (N.land s3 63))),
                  4%nat)
          end
        end
      end
    end
  end.

(** [utf8.RuneStart]: not a continuation byte. *)
Definition RuneStart (b : N) : bool := negb (N.land b 192 =? 128).

(** The backward scan of [DecodeLastRuneInString]: from [start], at most
    [fuel] bytes further back, stop on the first byte that can start a
    rune.  [before] holds the bytes in front of [start + 1], last byte
    first; the result is how many of them belong to the candidate. *)
Fixpoint scan_back (fuel : nat) (before : string) (taken : nat) : nat :=
  match fuel, before with
  | S f, String c r =>
    if RuneStart (code c) then S taken else scan_back f r (S taken)
  | O, String _ _ => S taken     (* loop ran past [lim]: one byte more *)
  | _, EmptyString => taken      (* [start < 0]: clamp to the beginning *)
  end.

(** [utf8.DecodeLastRuneInString], on the reversed string [rs] (last
    byte first). *)
Definition DecodeLastRune (rs : string) : N * nat :=
  match rs with
  | EmptyString => (RuneError, 0%nat)
  | String c before =>
    if code c <? RuneSelf then (code c, 1%nat)
    else
      let back := scan_back (UTFMax - 1) before 0 in
      let cand := rev_bytes EmptyString (take_bytes (S back) rs) in
      let '(r, size) := DecodeRuneInString cand in
      if (size =? S back)%nat then (r, size) else (RuneError, 1%nat)
  end.

(** [utf8.EncodeRune]: the UTF-8 encoding of the rune [r]. *)
Definition EncodeRune (r : N) : string :=
  if r <=? 127 then String (byte r) EmptyString
  else if r <=? 2047 then
    String (byte (N.lor 192 (N.shiftr r 6)))
      (String (byte (N.lor 128 (N.land r 63))) EmptyString)
  else
    let r := if (1114111 <? r) || ((55296 <=? r) && (r <=? 57343))
             then Utf8.RuneError else r in
    if r <=? 65535 then
      String (byte (N.lor 224 (N.shiftr r 12)))
        (String (byte (N.lor 128 (N.land (N.shiftr r 6) 63)))
           (String (byte (N.lor 128 (N.land r 63))) EmptyString))
    else
      String (byte (N.lor 240 (N.shiftr r 18)))
        (String (byte (N.lor 128 (N.land (N.shiftr r 12) 63)))
           (String (byte (N.lor 128 (N.land (N.shiftr r 6) 63)))
              (String (byte (N.lor 128 (N.land r 63))) EmptyString))).

End Utf8.

(** ** Package [unicode] *)
Module Unicode.

(** [unicode.IsSpace]: the Latin-1 white space and the [White_Space]
    property beyond Latin-1. *)
Definition IsSpace (r : N) : bool :=
  if r <=? 255 then
    (r =? 9) || (r =? 10) || (r =? 11) || (r =? 12) || (r =? 13)
    || (r =? 32) || (r =? 133) || (r =? 160)
  else
    (r =? 5760) || ((8192 <=? r) && (r <=? 8202))
    || (r =? 8232) || (r =? 8233) || (r =? 8239) || (r =? 8287)
    || (r =? 12288).

End Unicode.

(** ** Package [strings] *)
Module Strings.

(** [strings.HasPrefix]. *)
Fixpoint HasPrefix (s prefix : string) {struct prefix} : bool :=
  match prefix, s with
  | EmptyString, _ => true
  | String p prefix', String c s' => Ascii.eqb c p && HasPrefix s' prefix'
  | String _ _, EmptyString => false
  end.

(** The replacement budget of [strings.Replace]: [n < 0] is unlimited. *)
Definition budget (n : Z) : option nat :=
  if (n <? 0)%Z then None else Some (Z.to_nat n).

Definition spend (b : option nat) : option nat :=
  match b with Some k => Some (Nat.pred k) | None => None end.

Definition exhausted (b : option nat) : bool :=
  match b with Some O => true | _ => false end.

(** [strings.Replace] for a non-empty [old]: left to right, each
    occurrence of [old] that does not overlap the one replaced before it,
    while the budget lasts.  [skip] counts the bytes of the occurrence
    just replaced that are still to be passed over. *)
Fixpoint replace_old (old new : string) (b : option nat) (skip : nat)
         (s : string) : string :=
  match s with
  | EmptyString => EmptyString
  | String c r =>
    match skip with
    | S k => replace_old old new b k r
    | O =>
      if negb (exhausted b) && HasPrefix s old
      then new +:+ replace_old old new (spend b) (Nat.pred (String.length old)) r
      else String c (replace_old old new b 0 r)
    end
  end.

(** [strings.Replace] for the empty [old]: [new] goes in front of the
    string and after each rune, while the budget lasts. *)
Fixpoint replace_empty (new : string) (b : option nat) (skip : nat)
         (s : string) : string :=
  match s with
  | EmptyString => if exhausted b then EmptyString else new
  | String c r =>
    match skip with
    | S k => String c (replace_empty new b k r)
    | O =>
      if exhausted b then s
      else new +:+ String c
             (replace_empty new (spend b)
                (Nat.pred (snd (Utf8.DecodeRuneInString s))) r)
    end
  end.

(** [strings.Replace(s, old, new, n)]. *)
Definition Replace (s old new : string) (n : Z) : string :=
  if String.eqb old new || (n =? 0)%Z then s
  else match old with
       | EmptyString => replace_empty new (budget n) 0 s
       | String _ _ => replace_old old new (budget n) 0 s
       end.

(** [strings.ReplaceAll(s, old, new)] is [Replace(s, old, new, -1)]. *)
Definition ReplaceAll (s old new : string) : string := Replace s old new (-1).

Fixpoint has_byte (c : ascii) (s : string) : bool :=
  match s with
  | EmptyString => false
  | String d r => Ascii.eqb d c || has_byte c r
  end.

(** [strings.ContainsAny(s, chars)] for [chars] made of ASCII characters
    (the program passes the constant ["@"]): some byte of [s] is one of
    [chars].  An ASCII byte never lies inside a multi-byte rune, so the
    rune-wise search of the library finds exactly these bytes. *)
Fixpoint ContainsAny (s chars : string) : bool :=
  match s with
  | EmptyString => false
  | String c r => has_byte c chars || ContainsAny r chars
  end.

(** [strings.TrimLeftFunc(s, unicode.IsSpace)]: [skip] counts the bytes
    of the white-space rune being dropped. *)
Fixpoint trim_left (skip : nat) (s : string) : string :=
  match s with
  | EmptyString => EmptyString
  | String _ r =>
    match skip with
    | S k => trim_left k r
    | O =>
      let '(rn, w) := Utf8.DecodeRuneInString s in
      if Unicode.IsSpace rn then trim_left (Nat.pred w) r else s
    end
  end.

Definition TrimLeftSpace (s : string) : string := trim_left 0 s.

(** The loop of [lastIndexFunc(s, unicode.IsSpace, false)] on the
    reversed string: the number of bytes of [s] in front of the last
    rune that is not white space, [None] when every rune is white
    space (the library's [-1]). *)
Fixpoint last_index (skip : nat) (rs : string) : option nat :=
  match rs with
  | EmptyString => None
  | String _ r =>
    match skip with
    | S k => last_index k r
    | O =>
      let '(rn, w) := Utf8.DecodeLastRune rs in
      if Unicode.IsSpace rn then last_index (Nat.pred w) r
      else Some (String.length rs - w)%nat
    end
  end.

(** [strings.TrimRightFunc(s, unicode.IsSpace)]. *)
Definition TrimRightSpace (s : string) : string :=
  match last_index 0 (rev_bytes EmptyString s) with
  | None => EmptyString                                   (* [s[0:0]] *)
  | Some i =>
    let rest := drop_bytes i s in
    match rest with
    | EmptyString => take_bytes (S i) s
    | String c _ =>
      if Utf8.RuneSelf <=? code c
      then take_bytes (i + snd (Utf8.DecodeRuneInString rest)) s
      else take_bytes (S i) s
    end
  end.

(** [strings.TrimSpace(s)]: all leading and trailing white space, as
    defined by Unicode, removed. *)
Definition TrimSpace (s : string) : string :=
  TrimRightSpace (TrimLeftSpace s).

(** [strings.Join(elems, sep)]. *)
Fixpoint Join (elems : list string) (sep : string) : string :=
  match elems with
  | [] => EmptyString
  | [e] => e
  | e :: rest => e +:+ sep +:+ Join rest sep
  end.

End Strings.

(** ** The part of Go's library taken as an interface

    [regexp.Compile] / [Regexp.ReplaceAllString] and
    [strings.EqualFold].  [Compile k = None] stands for a syntax error
    (on which [regexp.MustCompile] panics). *)
Class GoRuntime := {
  Regexp : Type;
  Compile : string → option Regexp;
  ReplaceAllString : Regexp → string → string → string;
  EqualFold : string → string → bool
}.

(** What the properties below use of [strings.EqualFold]: it decodes both
    arguments by the same procedure and compares rune by rune, so a
    string folds to itself. *)
Class GoRuntimeLaws (rt : GoRuntime) : Prop := {
  EqualFold_refl : ∀ s, EqualFold s s = true
}.

(** ** An executable fragment of package [regexp]

    Patterns that are a sequence of [^], [$], [.] and ASCII literal
    characters, which covers the six built-in rules of [main].  Go
    compiles patterns with the Perl flags: [^] and [$] match at the
    beginning and the end of the text only, [.] matches any rune but
    a newline, literals match case-sensitively. *)
Module Regex.

Inductive inst : Type :=
| BeginText            (* ^ *)
| EndText              (* $ *)
| AnyNotNL             (* . *)
| Lit (c : ascii).

(** What the front end does with a pattern: inside the fragment, a
    syntax error of Go's parser, or valid or invalid RE2 syntax this
    model does not cover. *)
Inductive parsed : Type :=
| Prog (p : list inst)
| SyntaxError          (* missing argument to repetition operator *)
| Unmodelled.

Definition is_meta (c : ascii) : bool := Strings.has_byte c "\*+?()|[]{}".

Definition is_repeat (c : ascii) : bool := Strings.has_byte c "*+?".

Fixpoint parse_items (pat : string) : option (list inst) :=
  match pat with
  | EmptyString => Some []
  | String c r =>
    if is_meta c || (Utf8.RuneSelf <=? code c) then None
    else
      let i := if Ascii.eqb c "^" then BeginText
               else if Ascii.eqb c "$" then EndText
               else if Ascii.eqb c "." then AnyNotNL
               else Lit c in
      cons i <$> parse_items r
  end.

(** A repetition operator with nothing in front of it is rejected by
    Go's parser whatever follows. *)
Definition parse (pat : string) : parsed :=
  match pat with
  | String c _ =>
    if is_repeat c then SyntaxError
    else match parse_items pat with Some p => Prog p | None => Unmodelled end
  | EmptyString => Prog []
  end.

(** The program [p] run at byte offset [pos], where the text continues
    with [s]: the width of the match. *)
Fixpoint match_here (p : list inst) (pos : nat) (s : string) : option nat :=
  match p with
  | [] => Some 0%nat
  | BeginText :: q => if (pos =? 0)%nat then match_here q pos s else None
  | EndText :: q =>
    match s with EmptyString => match_here q pos s | _ => None end
  | AnyNotNL :: q =>
    match s with
    | EmptyString => None
    | String _ _ =>
      let '(r, w) := Utf8.DecodeRuneInString s in
      if r =? 10 then None
      else Nat.add w <$> match_here q (pos + w) (drop_bytes w s)
    end
  | Lit c :: q =>
    match s with
    | String d r =>
      if Ascii.eqb d c then S <$> match_here q (S pos) r else None
    | EmptyString => None
    end
  end.

(** The leftmost match at or after [pos], tried rune by rune; [s] is the
    text from [pos] on and [skip] the bytes left of the rune being
    stepped over.  The result is the pair [(a0, a1)] of its bounds. *)
Fixpoint search (p : list inst) (pos skip : nat) (s : string)
  : option (nat * nat) :=
  match skip with
  | O =>
    match match_here p pos s with
    | Some w => Some (pos, (pos + w)%nat)
    | None =>
      match s with
      | EmptyString => None
      | String _ r =>
        search p (S pos) (Nat.pred (snd (Utf8.DecodeRuneInString s))) r
      end
    end
  | S k =>
    match s with
    | EmptyString => None
    | String _ r => search p (S pos) k r
    end
  end.

Definition doExecute (p : list inst) (src : string) (pos : nat)
  : option (nat * nat) :=
  search p pos 0 (drop_bytes pos src).

Definition is_word (c : ascii) : bool :=
  let n := code c in
  ((48 <=? n) && (n <=? 57)) || ((65 <=? n) && (n <=? 90))
  || ((97 <=? n) && (n <=? 122)) || (n =? 95).

Fixpoint take_word (s : string) : string :=
  match s with
  | String c r => if is_word c then String c (take_word r) else EmptyString
  | EmptyString => EmptyString
  end.

(** [extract] of package [regexp], for ASCII templates: the name after a
    [$], bare or in braces, and the number of bytes it takes. *)
Definition extract (t : string) : option (string * nat) :=
  match t with
  | EmptyString => None
  | String c r =>
    if Ascii.eqb c "{" then
      let name := take_word r in
      match name, drop_bytes (String.length name) r with
      | String _ _, String d _ =>
        if Ascii.eqb d "}" then Some (name, (String.length name + 2)%nat)
        else None
      | _, _ => None
      end
    else
      match take_word t with
      | EmptyString => None
      | name => Some (name, String.length name)
      end
  end.

(** [Regexp.expand] for a program without capture groups: [$0] and
    [${0}] stand for the match [m], every other name for nothing, [$$]
    for a dollar sign, and a malformed [$] for itself. *)
Fixpoint expand (m : string) (skip : nat) (tpl : string) : string :=
  match tpl with
  | EmptyString => EmptyString
  | String c t =>
    match skip with
    | S k => expand m k t
    | O =>
      if Ascii.eqb c "$" then
        match t with
        | String d _ =>
          if Ascii.eqb d "$" then String "$" (expand m 1 t)
          else match extract t with
               | Some (name, used) =>
                 (if String.eqb name "0" then m else EmptyString)
                   +:+ expand m used t
               | None => String "$" (expand m 0 t)
               end
        | EmptyString => String "$" EmptyString
        end
      else String c (expand m 0 t)
    end
  end.

Definition slice (src : string) (lo hi : nat) : string :=
  take_bytes (hi - lo) (drop_bytes lo src).

(** The loop of [Regexp.replaceAll]: [None] when [fuel] runs out. *)
Fixpoint replaceAll (fuel : nat) (p : list inst) (src repl : string)
         (lastMatchEnd searchPos : nat) : option string :=
  match fuel with
  | O => None
  | S f =>
    if (String.length src <? searchPos)%nat
    then Some (drop_bytes lastMatchEnd src)
    else match doExecute p src searchPos with
    | None => Some (drop_bytes lastMatchEnd src)
    | Some (a0, a1) =>
      let copied := slice src lastMatchEnd a0 in
      let inserted :=
        if (lastMatchEnd <? a1)%nat || (a0 =? 0)%nat
        then expand (slice src a0 a1) 0 repl else EmptyString in
      let width := snd (Utf8.DecodeRuneInString (drop_bytes searchPos src)) in
      let searchPos' :=
        if (a1 <? searchPos + width)%nat then (searchPos + width)%nat
        else if (a1 <? searchPos + 1)%nat then (searchPos + 1)%nat
        else a1 in
      (λ rest, copied +:+ inserted +:+ rest)
        <$> replaceAll f p src repl a1 searchPos'
    end
  end.

(** [Regexp.ReplaceAllString]: every iteration moves [searchPos]
    forward, so [length src + 2] rounds suffice
    ([replaceAll_terminates] below). *)
Definition ReplaceAllString (p : list inst) (src repl : string) : string :=
  default src (replaceAll (String.length src + 2) p src repl 0 0).

Definition Compile (pat : string) : option (list inst) :=
  match parse pat with Prog p => Some p | _ => None end.

(** [strings.EqualFold] on ASCII text: bytes are equal, or are the two
    cases of one letter.  (On other text Go folds by the Unicode tables;
    here bytes from 128 on are compared as they are.) *)
Definition fold_eq (a b : ascii) : bool :=
  let '(sr, tr) := if code b <? code a then (code b, code a)
                   else (code a, code b) in
  (tr =? sr) || ((65 <=? sr) && (sr <=? 90) && (tr =? sr + 32)).

Fixpoint EqualFold (s t : string) : bool :=
  match s, t with
  | EmptyString, EmptyString => true
  | String a s', String b t' => fold_eq a b && EqualFold s' t'
  | _, _ => false
  end.

End Regex.

(** The executable runtime: the fragment above.  It agrees with Go on
    patterns of the fragment, replacement templates and texts in ASCII;
    a pattern outside the fragment does not compile here. *)
#[export] Instance AsciiRuntime : GoRuntime := {|
  Regexp := list Regex.inst;
  Compile := Regex.Compile;
  ReplaceAllString := Regex.ReplaceAllString;
  EqualFold := Regex.EqualFold
|}.

(** ** [src/main.go] *)

(** [type Config struct].  [Rules] is a Go [map[string]string]. *)
Record Config := {
  GhToken : string;
  GhUser : string;
  Repo : string;
  Registry : string;
  RegistryNamespace : string;
  RegistryUserName : string;
  RegistryPassword : string;
  Rules : gmap string string;
  RunId : string;
  MaxCount : Z;
  RulesFile : string
}.

(** The two fields of [github.Issue] that [mirrorByIssues] reads:
    [*issues.Title] and [*issues.GetUser().Login].  Both are pointers in
    go-github; every issue the GitHub API lists carries them, and the
    model takes them as present. *)
Record Issue := {
  Title : string;
  Login : string
}.

(** A Go call either returns or panics. *)
Inductive Run (A : Type) : Type :=
| Return (a : A)
| Panic (msg : string).
Arguments Return {A} a.
Arguments Panic {A} msg.

(** The built-in rules of [main] (lines 107-114). *)
Definition defaultRules : gmap string string :=
  {[ "^gcr.io" := "";
     "^docker.io" := "docker";
     "^k8s.gcr.io" := "google-containers";
     "^registry.k8s.io" := "google-containers";
     "^quay.io" := "quay";
     "^ghcr.io" := "ghcr" ]}.

(** What [ioutil.ReadFile(RulesFile)] followed by [yaml.Unmarshal] into a
    fresh map came to. *)
Inductive RulesDocument : Type :=
| ReadFailed                                  (* ReadFile: err != nil *)
| UnmarshalFailed                             (* Unmarshal: err != nil *)
| Unmarshalled (rules : gmap string string).  (* both err == nil *)

(** Lines 107-122 of [main]: the rule set the run works with. *)
Definition loadRules (doc : RulesDocument) : gmap string string :=
  let configRules := defaultRules in
  match doc with
  | Unmarshalled rules => rules
  | ReadFailed | UnmarshalFailed => configRules
  end.

(** A [for k, v := range m] loop visits every entry of [m] once, in an
    order the language leaves open: [order] is one such sequence. *)
Definition ranges (m : gmap string string) (order : list (string * string))
  : Prop :=
  order ≡ₚ map_to_list m.

(** The three ways the rewriting part of [mirrorByIssues] ends, each with
    the [originImageName] and [targetImageName] it holds at that point:
    the early return of line 232, the early return of line 242, and
    falling through to the Docker calls at line 253. *)
Inductive RewriteResult : Type :=
| Rejected (err origin target : string)
| NoMatch (err origin target : string)
| Rewritten (origin target : string).

Section Mirror.
Context {rt : GoRuntime}.

(** [regexp.MustCompile]: a pattern that does not compile is a panic.
    (Go's panic value goes on with the quoted pattern and the parser's
    error text; the model keeps the pattern.) *)
Definition MustCompile (k : string) : Run Regexp :=
  match Compile k with
  | Some re => Return re
  | None => Panic ("regexp: Compile(" +:+ k +:+ ")")
  end.

(** Lines 235-239: the loop over [config.Rules], on the sequence the
    [range] yields. *)
Fixpoint applyRules (order : list (string * string))
         (targetImageName : string) (registries : list string)
  : Run (string * list string) :=
  match order with
  | [] => Return (targetImageName, registries)
  | (k, v) :: rest =>
    match MustCompile k with
    | Return re =>
      applyRules rest (ReplaceAllString re targetImageName v)
                 (registries ++ [k])
    | Panic msg => Panic msg
    end
  end.

(** Line 228. *)
Definition originOf (issues : Issue) : string :=
  Strings.TrimSpace (Strings.Replace (Title issues) "[PORTER]" "" 1).

(** Lines 245-252. *)
Definition flatten (targetImageName : string) : string :=
  Strings.ReplaceAll targetImageName "/" ".".

Definition withPrefixes (config : Config) (targetImageName : string)
  : string :=
  let targetImageName :=
    if (0 <? String.length (RegistryNamespace config))%nat
    then RegistryNamespace config +:+ "/" +:+ targetImageName
    else targetImageName in
  if (0 <? String.length (Registry config))%nat
  then Registry config +:+ "/" +:+ targetImageName
  else targetImageName.

(** Lines 226-252 of [mirrorByIssues]. *)
Definition rewrite (order : list (string * string)) (config : Config)
           (issues : Issue) : Run RewriteResult :=
  let originImageName := originOf issues in
  let targetImageName := originImageName in
  if Strings.ContainsAny originImageName "@" then
    Return (Rejected ("@" +:+ Login issues +:+ " 不支持同步带摘要信息的镜像")
                     originImageName targetImageName)
  else
    match applyRules order targetImageName [] with
    | Panic msg => Panic msg
    | Return (targetImageName, registries) =>
      if EqualFold targetImageName originImageName then
        Return (NoMatch ("@" +:+ Login issues +:+ " 暂不支持同步"
                           +:+ originImageName +:+ ",目前仅支持同步 `"
                           +:+ Strings.Join registries " ," +:+ "`镜像")
                        originImageName targetImageName)
      else
        Return (Rewritten originImageName
                          (withPrefixes config (flatten targetImageName)))
    end.

(** The Docker Engine calls of lines 256-274, each reduced to the error
    it returns, if any. *)
Record Docker := {
  dockerLogin : Config → option string;
  dockerPull : string → option string;
  dockerTag : string → string → option string;
  dockerPush : string → Config → option string
}.

(** [mirrorByIssues]: the triple [(err, originImageName,
    targetImageName)] it returns. *)
Definition mirrorByIssues (d : Docker) (order : list (string * string))
           (issues : Issue) (config : Config)
  : Run (option string * string * string) :=
  match rewrite order config issues with
  | Panic msg => Panic msg
  | Return (Rejected err o t) | Return (NoMatch err o t) =>
    Return (Some err, o, t)
  | Return (Rewritten o t) =>
    match dockerLogin d config with
    | Some e =>
      Return (Some ("@" +:+ GhUser config +:+ " ,docker login 报错 `"
                      +:+ e +:+ "`"), o, t)
    | None =>
    match dockerPull d o with
    | Some e =>
      Return (Some ("@" +:+ Login issues +:+ " ,docker pull 报错 `"
                      +:+ e +:+ "`"), o, t)
    | None =>
    match dockerTag d o t with
    | Some e =>
      Return (Some ("@" +:+ Login issues +:+ " ,docker tag 报错 `"
                      +:+ e +:+ "`"), o, t)
    | None =>
    match dockerPush d t config with
    | Some e =>
      Return (Some ("@" +:+ Login issues +:+ " ,docker push 报错 `"
                      +:+ e +:+ "`"), o, t)
    | None => Return (None, o, t)
    end end end end
  end.

(** The loop of lines 235-239 as a relation between the state before and
    the outcome, one rule per way an iteration can go. *)
Inductive rangeLoop
  : list (string * string) → string → list string
    → Run (string * list string) → Prop :=
| rangeLoop_done target registries :
    rangeLoop [] target registries (Return (target, registries))
| rangeLoop_step k v rest target registries re out :
    Compile k = Some re →
    rangeLoop rest (ReplaceAllString re target v) (registries ++ [k]) out →
    rangeLoop ((k, v) :: rest) target registries out
| rangeLoop_panic k v rest target registries :
    Compile k = None →
    rangeLoop ((k, v) :: rest) target registries
              (Panic ("regexp: Compile(" +:+ k +:+ ")")).

(** One invocation of the rewriting part, as a relation: the result of a
    run that ranges over the rules in [order]. *)
Inductive rewrites (order : list (string * string)) (config : Config)
          (issues : Issue) : Run RewriteResult → Prop :=
| rewrites_digest :
    Strings.ContainsAny (originOf issues) "@" = true →
    rewrites order config issues
      (Return (Rejected ("@" +:+ Login issues +:+ " 不支持同步带摘要信息的镜像")
                        (originOf issues) (originOf issues)))
| rewrites_panic msg :
    Strings.ContainsAny (originOf issues) "@" = false →
    rangeLoop order (originOf issues) [] (Panic msg) →
    rewrites order config issues (Panic msg)
| rewrites_unchanged target registries :
    Strings.ContainsAny (originOf issues) "@" = false →
    rangeLoop order (originOf issues) [] (Return (target, registries)) →
    EqualFold target (originOf issues) = true →
    rewrites order config issues
      (Return (NoMatch ("@" +:+ Login issues +:+ " 暂不支持同步"
                          +:+ originOf issues +:+ ",目前仅支持同步 `"
                          +:+ Strings.Join registries " ," +:+ "`镜像")
                       (originOf issues) target))
| rewrites_changed target registries :
    Strings.ContainsAny (originOf issues) "@" = false →
    rangeLoop order (originOf issues) [] (Return (target, registries)) →
    EqualFold target (originOf issues) = false →
    rewrites order config issues
      (Return (Rewritten (originOf issues)
                         (withPrefixes config (flatten target)))).

End Mirror.

(** ** [src/pull-k8s-image.sh] *)

(** [sed 's/old/new/g'] for a pattern that is a literal string (every
    expression of the script escapes its dots). *)
Definition sed_s_g (old new s : string) : string := Strings.ReplaceAll s old new.

(** The [sed] program of line 5, on one line of input. *)
Definition mirror_img (k8s_img : string) : string :=
  let s := sed_s_g "quay.io" "ty13363959807/quay" k8s_img in
  let s := sed_s_g "ghcr.io" "ty13363959807/ghcr" s in
  let s := sed_s_g "registry.k8s.io" "ty13363959807/google-containers" s in
  let s := sed_s_g "k8s.gcr.io" "ty13363959807/google-containers" s in
  let s := sed_s_g "gcr.io" "ty13363959807" s in
  let s := sed_s_g "/" "." s in
  let s := sed_s_g " " (String (byte 10) EmptyString) s in
  sed_s_g "ty13363959807." "ty13363959807/" s.





(** ** The rest of [src/main.go]: reporting on the issue *)

(** The loop of [strings.Split] for a non-empty [sep]: the pieces between
    the occurrences of [sep], found left to right without overlap.
    [skip] counts the bytes of the separator just met that are still to
    pass. *)
Fixpoint split_sep (sep : string) (skip : nat) (s : string) : list string :=
  match s with
  | EmptyString => [EmptyString]
  | String c r =>
    match skip with
    | S k => split_sep sep k r
    | O =>
      if Strings.HasPrefix s sep
      then EmptyString :: split_sep sep (Nat.pred (String.length sep)) r
      else match split_sep sep 0 r with
           | piece :: pieces => String c piece :: pieces
           | [] => [String c EmptyString]
           end
    end
  end.

(** [strings.Split(s, sep)], for the non-empty separator the program
    passes.  (With an empty [sep] the library cuts after each rune; this
    model does not cover that case.) *)
Definition Split (s sep : string) : list string := split_sep sep 0 s.

(** The fields of [github.Issue] the reporting functions read besides
    those of [Issue]: [*issues.RepositoryURL] and [issues.GetNumber()]. *)
Record RepoIssue := {
  issue : Issue;
  RepositoryURL : string;
  Number : Z
}.

(** The calls on [cli.Issues] the program makes, with their arguments. *)
Inductive GithubCall : Type :=
| CreateComment (owner repo : string) (number : Z) (body : string)
| AddLabelsToIssue (owner repo : string) (number : Z) (labels : list string)
| Edit (owner repo : string) (number : Z) (state : string).

(** [names := strings.Split(url, "/")], for [url] the issue's
    [RepositoryURL], followed by
    [names[len(names)-2], names[len(names)-1]]: the first lines of
    [issuesClose], [issuesAddLabels] and [commentIssues]: a slice of one
    element makes the first index [-1], a run-time panic. *)
Definition ownerRepo (issues : RepoIssue) : Run (string * string) :=
  let names := Split (RepositoryURL issues) "/" in
  if (length names <? 2)%nat
  then Panic "runtime error: index out of range [-1]"
  else match names !! (length names - 2)%nat,
             names !! (length names - 1)%nat with
       | Some owner, Some repo => Return (owner, repo)
       | _, _ => Panic "runtime error: index out of range"
       end.

(** A run of the reporting code: the calls made on GitHub so far, and
    what the code came to -- a value, or the panic that ended it. *)
Definition Trace (A : Type) : Type := list GithubCall * Run A.

#[export] Instance Trace_ret : MRet Trace := λ A a, ([], Return a).

#[export] Instance Trace_bind : MBind Trace := λ A B f m,
  match m with
  | (calls, Return a) => let '(calls', r) := f a in (calls ++ calls', r)
  | (calls, Panic msg) => (calls, Panic msg)
  end.

(** A value computed without a call, and one call on GitHub.  (The error
    a call returns is printed by [main] and otherwise ignored.) *)
Definition lift {A : Type} (r : Run A) : Trace A := ([], r).

Definition call (r : Run GithubCall) : Trace unit :=
  match r with
  | Return c => ([c], Return tt)
  | Panic msg => ([], Panic msg)
  end.

Definition commentIssues (issues : RepoIssue) (comment : string)
  : Trace unit :=
  call (match ownerRepo issues with
        | Return (owner, repo) =>
          Return (CreateComment owner repo (Number issues) comment)
        | Panic msg => Panic msg
        end).

Definition issuesAddLabels (issues : RepoIssue) (success : bool)
  : Trace unit :=
  call (match ownerRepo issues with
        | Return (owner, repo) =>
          let label := if success then "success" else "failed" in
          Return (AddLabelsToIssue owner repo (Number issues) [label])
        | Panic msg => Panic msg
        end).

Definition issuesClose (issues : RepoIssue) : Trace unit :=
  call (match ownerRepo issues with
        | Return (owner, repo) =>
          Return (Edit owner repo (Number issues) "closed")
        | Panic msg => Panic msg
        end).

(** [type Result struct]. *)
Module Result.
Record t := {
  Success : bool;
  Registry : string;
  RegistryUser : string;
  OriginImageName : string;
  TargetImageName : string;
  GhUser : string;
  Repo : string;
  RunId : string
}.
End Result.

Definition nl : string := String (byte 10) EmptyString.

Definition cat (pieces : list string) : string :=
  foldr String.append EmptyString pieces.

(** What [tmpl.Execute] writes for [resultTpl]: the text of the template
    with each action replaced by its value ([{{ if .Registry }}] holds
    for a non-empty string; nothing is escaped or trimmed).  The code
    fence the template spells ["^^^"] is the parameter [fence]. *)
Definition resultTplWith (fence : string) (r : Result.t) : string :=
  cat [ nl;
        if Result.Success r then
          cat [ nl; "**转换完成**"; nl; fence; "bash"; nl;
                if (0 <? String.length (Result.Registry r))%nat
                then cat [ nl; "docker login -u"; Result.RegistryUser r; " ";
                           Result.Registry r; nl ]
                else EmptyString;
                nl; "#原镜像"; nl; Result.OriginImageName r; nl;
                nl; "#转换后镜像"; nl; Result.TargetImageName r; nl;
                nl; nl; "#下载并重命名镜像"; nl;
                "docker pull "; Result.TargetImageName r; nl;
                nl; "docker tag  "; Result.TargetImageName r; " ";
                Result.OriginImageName r; nl;
                nl; "docker images | grep $(echo "; Result.OriginImageName r;
                " |awk -F':' '{print $1}')"; nl;
                nl; fence; nl ]
        else
          cat [ nl; "**转换失败**"; nl;
                "详见 [构建任务](https://github.com/"; Result.GhUser r; "/";
                Result.Repo r; "/actions/runs/"; Result.RunId r; ")"; nl ];
        nl ].

Definition executeResultTpl (r : Result.t) : string := resultTplWith "^^^" r.

(** Lines 188: the comment that reports the result. *)
Definition resultComment (r : Result.t) : string :=
  Strings.ReplaceAll (executeResultTpl r) "^" "`".

Section Report.
Context {rt : GoRuntime}.

(** The body of the goroutine [main] starts for each issue (lines
    152-197), as the calls it makes on GitHub.  ([template.Parse] and
    [Execute] cannot fail on the constant template and a [Result].) *)
Definition processIssue (d : Docker) (order : list (string * string))
           (issues : RepoIssue) (config : Config) : Trace unit :=
  _ ← commentIssues issues
        ("[构建进展](https://github.com/" +:+ GhUser config +:+ "/"
           +:+ Repo config +:+ "/actions/runs/" +:+ RunId config +:+ ")");
  '(err, originImageName, targetImageName) ←
    lift (mirrorByIssues d order (issue issues) config);
  _ ← match err with
      | Some e => commentIssues issues e
      | None => mret tt
      end;
  let result :=
    {| Result.Success := match err with None => true | Some _ => false end;
       Result.Registry := Registry config;
       Result.RegistryUser := RegistryUserName config;
       Result.OriginImageName := originImageName;
       Result.TargetImageName := targetImageName;
       Result.GhUser := GhUser config;
       Result.Repo := Repo config;
       Result.RunId := RunId config |} in
  _ ← commentIssues issues (resultComment result);
  _ ← issuesAddLabels issues (Result.Success result);
  issuesClose issues.

(** A rule that compiles and leaves the string [s] as it is. *)
Definition inert (kv : string * string) (s : string) : Prop :=
  ∃ re, Compile kv.1 = Some re ∧ ReplaceAllString re s kv.2 = s.

End Report.

(** ** The rules file of a run *)

(** The constant [RulesFile] of line 28 (in this file the name is that of
    the field of [Config]). *)
Definition RulesFileConst : string := "rules.yaml".

(** Lines 107-122 of [main] on the parsed flags: [files] gives, for a
    path, what reading and unmarshalling the file there comes to. *)
Definition configureRules (files : string → RulesDocument) (config : Config)
  : Config :=
  {| GhToken := GhToken config; GhUser := GhUser config; Repo := Repo config;
     Registry := Registry config;
     RegistryNamespace := RegistryNamespace config;
     RegistryUserName := RegistryUserName config;
     RegistryPassword := RegistryPassword config;
     Rules := loadRules (files RulesFileConst);
     RunId := RunId config; MaxCount := MaxCount config;
     RulesFile := RulesFile config |}.

(** ** White space, and results without their message *)

(** The code points with the Unicode property [White_Space]. *)
Definition White_Space : list N :=
  [9; 10; 11; 12; 13; 32; 133; 160; 5760;
   8192; 8193; 8194; 8195; 8196; 8197; 8198; 8199; 8200; 8201; 8202;
   8232; 8233; 8239; 8287; 12288].

Definition encode_runes (runes : list N) : string :=
  foldr (λ r s, Utf8.EncodeRune r +:+ s) EmptyString runes.

(** [t] is [s] without its leading and trailing white space. *)
Definition trimmed (s t : string) : Prop :=
  (∃ lead trail,
      Forall (λ r, r ∈ White_Space) lead
      ∧ Forall (λ r, r ∈ White_Space) trail
      ∧ s = encode_runes lead +:+ t +:+ encode_runes trail)
  ∧ ∀ r, r ∈ White_Space →
         (∀ x, t ≠ Utf8.EncodeRune r +:+ x) ∧ (∀ x, t ≠ x +:+ Utf8.EncodeRune r).

(** A result without the text of its message, which names the requester:
    the variant and the two image names. *)
Definition verdict (r : RewriteResult) : RewriteResult :=
  match r with
  | Rejected _ o t => Rejected EmptyString o t
  | NoMatch _ o t => NoMatch EmptyString o t
  | Rewritten o t => Rewritten o t
  end.

Definition verdictOf (r : Run RewriteResult) : Run RewriteResult :=
  match r with
  | Return x => Return (verdict x)
  | Panic msg => Panic msg
  end.

(** ** Predicates used in the further properties *)

Definition caret_to_backquote (c : ascii) : ascii :=
  if Ascii.eqb c "^" then "`"%char else c.

(** A string of ASCII white space. *)
Fixpoint ascii_spaces (s : string) : bool :=
  match s with
  | EmptyString => true
  | String c r =>
    (code c <? 128) && Unicode.IsSpace (code c) && ascii_spaces r
  end.

(** What may follow a prefix cut at a rune found from the right: nothing,
    or a byte that continues no rune. *)
Definition starts_rune (fw : string) : Prop :=
  match fw with
  | EmptyString => True
  | String b _ => Utf8.continuation (code b) = false
  end.

(** The end of [TrimRightFunc]: the cut behind the rune at [i]. *)
Definition cut_after (s : string) (i : nat) : string :=
  match drop_bytes i s with
  | EmptyString => take_bytes (S i) s
  | String c _ =>
    if Utf8.RuneSelf <=? code c
    then take_bytes (i + snd (Utf8.DecodeRuneInString (drop_bytes i s))) s
    else take_bytes (S i) s
  end.




(** ** Inputs used in the examples *)

(** A configuration as the flags of [init] give it: only the registry,
    the namespace and the rules set. *)
Definition flagsConfig (registry namespace : string)
           (rules : gmap string string) : Config :=
  {| GhToken := EmptyString; GhUser := EmptyString; Repo := EmptyString;
     Registry := registry; RegistryNamespace := namespace;
     RegistryUserName := EmptyString; RegistryPassword := EmptyString;
     Rules := rules; RunId := EmptyString; MaxCount := 1;
     RulesFile := "rules.yaml" |}.

Definition issueOf (title : string) : Issue :=
  {| Title := title; Login := "requester" |}.

(** A configuration with every field set that the rewriting does not
    read. *)
Definition secretsConfig (registry namespace : string) : Config :=
  {| GhToken := "token"; GhUser := "owner"; Repo := "repo";
     Registry := registry; RegistryNamespace := namespace;
     RegistryUserName := "porter"; RegistryPassword := "secret";
     Rules := ∅; RunId := "42"; MaxCount := 3; RulesFile := "mine.yaml" |}.

(** A no-break space (U+00A0) and an ideographic space (U+3000). *)
Definition nbsp : string := String (byte 194) (String (byte 160) EmptyString).
Definition ideographic_space : string :=
  String (byte 227) (String (byte 128) (String (byte 128) EmptyString)).

(** A title with the marker twice and white space of Unicode around the
    image reference. *)
Definition paddedIssue : Issue :=
  issueOf ("[PORTER]" +:+ nbsp +:+ "gcr.io/[PORTER]pause:3.2"
             +:+ ideographic_space).

Definition repoIssueOf (url title : string) : RepoIssue :=
  {| issue := issueOf title; RepositoryURL := url; Number := 7 |}.

(** A Docker Engine on which every call succeeds. *)
Definition dockerOk : Docker :=
  {| dockerLogin := λ _, None; dockerPull := λ _, None;
     dockerTag := λ _ _, None; dockerPush := λ _ _, None |}.

(** [old] occurs in [s] between [pre] and [post], and nowhere further
    to the left. *)
Definition first_occurrence (old s pre post : string) : Prop :=
  s = pre +:+ old +:+ post
  ∧ ∀ a b, s = a +:+ old +:+ b → (String.length pre <= String.length a)%nat.

(** Predicates on bytes used to follow [strings.TrimSpace]: the bytes
    from 128 on (those of multi-byte runes), and the ASCII characters
    that are not white space. *)
Fixpoint all_high (s : string) : Prop :=
  match s with
  | EmptyString => True
  | String c r => 128 <= code c ∧ all_high r
  end.

Definition plain (c : ascii) : Prop :=
  code c < 128 ∧ Unicode.IsSpace (code c) = false.

Definition high_prefix (k : nat) (s : string) : Prop :=
  (k <= String.length s)%nat ∧ all_high (take_bytes k s).

Definition slash_to_dot (c : ascii) : ascii :=
  if Ascii.eqb c "/" then "."%char else c.

(** * Properties *)

(** ** Byte strings *)

Lemma app_cons_s (c : ascii) (a b : string) :
  String c a +:+ b = String c (a +:+ b).
Proof. reflexivity. Qed.

Lemma app_nil_l_s (s : string) : "" +:+ s = s.
Proof. reflexivity. Qed.

Lemma app_nil_r_s (s : string) : s +:+ "" = s.
Proof.
  induction s as [|c s IH]; [reflexivity | now rewrite app_cons_s, IH].
Qed.

Lemma app_assoc_s (a b c : string) : (a +:+ b) +:+ c = a +:+ (b +:+ c).
Proof.
  induction a as [|x a IH]; [reflexivity | now rewrite !app_cons_s, IH].
Qed.

Lemma length_app_s (a b : string) :
  String.length (a +:+ b) = (String.length a + String.length b)%nat.
Proof.
  induction a as [|x a IH]; [reflexivity | rewrite app_cons_s; simpl; now rewrite IH].
Qed.

Lemma drop_bytes_app (a b : string) : drop_bytes (String.length a) (a +:+ b) = b.
Proof.
  induction a as [|x a IH]; [reflexivity | rewrite app_cons_s; exact IH].
Qed.

Lemma HasPrefix_spec (s p : string) :
  Strings.HasPrefix s p = true ↔ ∃ b, s = p +:+ b.
Proof.
  revert s; induction p as [|x p IH]; intros s; simpl.
  - split; [intros _; now exists s | reflexivity].
  - destruct s as [|c s].
    + split; [discriminate | intros [b Hb]; discriminate].
    + rewrite andb_true_iff, IH. split.
      * intros [Hc [b ->]]. apply Ascii.eqb_eq in Hc as ->. now exists b.
      * intros [b Hb]. rewrite app_cons_s in Hb. injection Hb as -> ->.
        split; [apply Ascii.eqb_refl | now exists b].
Qed.

(** ** Runes and white space *)

Lemma first_lo b sz lo hi : Utf8.first b = Some (sz, (lo, hi)) → 128 <= lo.
Proof.
  unfold Utf8.first. repeat case_match; intros ?; simplify_eq; lia.
Qed.

Lemma continuation_high b : Utf8.continuation b = true → 128 <= b.
Proof.
  unfold Utf8.continuation. intros [H1 _]%andb_true_iff.
  now apply N.leb_le in H1.
Qed.

(** A branch of [DecodeRuneInString] that returns a width of one, or of
    bytes already known to be high. *)
Ltac decode_branch :=
  intros [= <- <-]; simpl; repeat split; (lia || easy).

Lemma decode_spec s rn w :
  Utf8.DecodeRuneInString s = (rn, w) →
  (w <= String.length s)%nat
  ∧ (s ≠ EmptyString → 1 <= w)%nat
  ∧ ((2 <= w)%nat → all_high (take_bytes w s)).
Proof.
  unfold Utf8.DecodeRuneInString, Utf8.RuneSelf.
  destruct s as [|c0 r0]; [decode_branch|].
  destruct (code c0 <? 128) eqn:H0; [decode_branch|].
  apply N.ltb_ge in H0.
  destruct (Utf8.first (code c0)) as [[sz [lo hi]]|] eqn:Hf; [|decode_branch].
  apply first_lo in Hf.
  destruct r0 as [|c1 r1]; [decode_branch|].
  destruct ((code c1 <? lo) || (hi <? code c1)) eqn:H1; [decode_branch|].
  apply orb_false_iff in H1 as [H1 _]. apply N.ltb_ge in H1.
  destruct (sz <=? 2)%nat; [decode_branch|].
  destruct r1 as [|c2 r2]; [decode_branch|].
  destruct (Utf8.continuation (code c2)) eqn:H2; simpl; [|decode_branch].
  apply continuation_high in H2.
  destruct (sz <=? 3)%nat; [decode_branch|].
  destruct r2 as [|c3 r3]; [decode_branch|].
  destruct (Utf8.continuation (code c3)) eqn:H3; simpl; [|decode_branch].
  apply continuation_high in H3.
  decode_branch.
Qed.

Lemma high_prefix_0 s : high_prefix 0 s.
Proof. split; simpl; [lia | exact I]. Qed.

Lemma high_prefix_S k c r :
  high_prefix (S k) (String c r) ↔ 128 <= code c ∧ high_prefix k r.
Proof. unfold high_prefix. simpl. intuition lia. Qed.

Lemma high_prefix_nil k : high_prefix k EmptyString → k = 0%nat.
Proof. intros [Hk _]. simpl in Hk. lia. Qed.

Lemma decode_narrow c r :
  code c < 128 → Utf8.DecodeRuneInString (String c r) = (code c, 1%nat).
Proof.
  intros Hc. unfold Utf8.DecodeRuneInString, Utf8.RuneSelf.
  apply N.ltb_lt in Hc. now rewrite Hc.
Qed.

(** The bytes a rune takes after its first one are all high. *)
Lemma decode_tail_high c r rn w :
  Utf8.DecodeRuneInString (String c r) = (rn, w) →
  high_prefix (Nat.pred w) r.
Proof.
  intros Hd. apply decode_spec in Hd as (Hlen & Hpos & Hhigh).
  specialize (Hpos ltac:(discriminate)).
  destruct w as [|[|w]]; [lia | apply high_prefix_0 |].
  specialize (Hhigh ltac:(lia)). simpl in Hlen.
  change (take_bytes (S (S w)) (String c r))
    with (String c (take_bytes (S w) r)) in Hhigh.
  destruct Hhigh as [_ Hhigh]. split; [simpl; lia | exact Hhigh].
Qed.

Lemma trim_left_keeps a k c b :
  plain c → high_prefix k (a +:+ String c b) →
  ∃ a', Strings.trim_left k (a +:+ String c b) = a' +:+ String c b.
Proof.
  intros [Hc Hsp]. revert k; induction a as [|x a IH]; intros k Hk.
  - rewrite app_nil_l_s in *. destruct k as [|k].
    + exists EmptyString. cbn [Strings.trim_left].
      rewrite decode_narrow by exact Hc. now rewrite Hsp.
    + apply high_prefix_S in Hk as [Hhigh _]. lia.
  - rewrite app_cons_s in *. destruct k as [|k].
    + cbn [Strings.trim_left].
      destruct (Utf8.DecodeRuneInString (String x (a +:+ String c b)))
        as [rn w] eqn:Hd.
      destruct (Unicode.IsSpace rn).
      * apply IH. eapply decode_tail_high, Hd.
      * exists (String x a). now rewrite app_cons_s.
    + cbn [Strings.trim_left]. apply high_prefix_S in Hk as [_ Hk].
      now apply IH.
Qed.

Lemma rev_bytes_acc acc s :
  rev_bytes acc s = rev_bytes EmptyString s +:+ acc.
Proof.
  revert acc; induction s as [|c r IH]; intros acc; simpl; [reflexivity|].
  rewrite IH, (IH (String c EmptyString)), app_assoc_s. reflexivity.
Qed.

Lemma rev_bytes_app a b :
  rev_bytes EmptyString (a +:+ b)
  = rev_bytes EmptyString b +:+ rev_bytes EmptyString a.
Proof.
  induction a as [|c a IH]; [now rewrite app_nil_l_s, app_nil_r_s|].
  rewrite app_cons_s. simpl.
  rewrite rev_bytes_acc, (rev_bytes_acc (String c EmptyString) a), IH.
  now rewrite app_assoc_s.
Qed.

Lemma length_rev_bytes acc s :
  String.length (rev_bytes acc s) = (String.length s + String.length acc)%nat.
Proof.
  revert acc; induction s as [|c r IH]; intros acc; simpl; [reflexivity|].
  rewrite IH. simpl. lia.
Qed.

Lemma all_high_app a b : all_high (a +:+ b) ↔ all_high a ∧ all_high b.
Proof.
  induction a as [|c a IH]; [rewrite app_nil_l_s; simpl; tauto|].
  rewrite app_cons_s. simpl. tauto.
Qed.

Lemma all_high_rev s : all_high (rev_bytes EmptyString s) ↔ all_high s.
Proof.
  induction s as [|c r IH]; [reflexivity|].
  simpl. rewrite rev_bytes_acc, all_high_app, IH. simpl. tauto.
Qed.

Lemma take_bytes_all n s : (String.length s <= n)%nat → take_bytes n s = s.
Proof.
  revert n; induction s as [|c r IH]; intros [|n] Hn; simpl in *;
    try reflexivity; try lia.
  now rewrite IH by lia.
Qed.

Lemma length_take_bytes n s :
  String.length (take_bytes n s) = Nat.min n (String.length s).
Proof.
  revert n; induction s as [|c r IH]; intros [|n]; simpl; try reflexivity.
  now rewrite IH.
Qed.

(** The bytes the last rune takes in front of its last one are all high. *)
Lemma decode_last_spec x before rn w :
  Utf8.DecodeLastRune (String x before) = (rn, w) →
  (1 <= w)%nat ∧ high_prefix (Nat.pred w) before.
Proof.
  unfold Utf8.DecodeLastRune.
  destruct (code x <? Utf8.RuneSelf);
    [intros [= <- <-]; split; [lia | apply high_prefix_0]|].
  generalize (Utf8.scan_back (Utf8.UTFMax - 1) before 0). intros back.
  change (take_bytes (S back) (String x before))
    with (String x (take_bytes back before)).
  destruct (Utf8.DecodeRuneInString
              (rev_bytes EmptyString (String x (take_bytes back before))))
    as [r size] eqn:Hd.
  destruct (size =? S back)%nat eqn:Hsize;
    [|intros [= <- <-]; split; [lia | apply high_prefix_0]].
  apply Nat.eqb_eq in Hsize. intros [= <- <-]. subst size.
  split; [lia|]. cbn [Nat.pred].
  apply decode_spec in Hd as (Hlen & _ & Hhigh).
  rewrite length_rev_bytes in Hlen. cbn [String.length] in Hlen.
  rewrite length_take_bytes in Hlen.
  destruct back as [|back']; [apply high_prefix_0|].
  specialize (Hhigh ltac:(lia)).
  rewrite take_bytes_all in Hhigh
    by (rewrite length_rev_bytes; cbn [String.length];
        rewrite length_take_bytes; lia).
  apply (proj1 (all_high_rev _)) in Hhigh. cbn [all_high] in Hhigh.
  destruct Hhigh as [_ Hhigh].
  split; [lia | exact Hhigh].
Qed.

Lemma last_index_keeps rb k c ra :
  plain c → high_prefix k (rb +:+ String c ra) →
  ∃ i, Strings.last_index k (rb +:+ String c ra) = Some i
       ∧ (String.length ra <= i)%nat
       ∧ (i < String.length (rb +:+ String c ra))%nat.
Proof.
  intros [Hc Hsp]. revert k; induction rb as [|x rb IH]; intros k Hk.
  - rewrite app_nil_l_s in *. destruct k as [|k].
    + exists (String.length ra). cbn [Strings.last_index].
      unfold Utf8.DecodeLastRune, Utf8.RuneSelf.
      apply N.ltb_lt in Hc. rewrite Hc, Hsp. simpl. split; [f_equal; lia | lia].
    + apply high_prefix_S in Hk as [Hhigh _]. lia.
  - rewrite app_cons_s in *. destruct k as [|k].
    + cbn [Strings.last_index].
      destruct (Utf8.DecodeLastRune (String x (rb +:+ String c ra)))
        as [rn w] eqn:Hd.
      apply decode_last_spec in Hd as [Hw Hhigh].
      destruct (Unicode.IsSpace rn).
      * destruct (IH _ Hhigh) as (i & -> & Hlo & Hhi).
        exists i. simpl. split; [reflexivity | lia].
      * eexists. split; [reflexivity|].
        destruct Hhigh as [Hlen Hall]. simpl String.length.
        rewrite length_app_s in *. simpl String.length in *.
        assert (Nat.pred w <= String.length rb)%nat; [|lia].
        clear -Hlen Hall Hc.
        destruct (Nat.le_gt_cases (Nat.pred w) (String.length rb)) as [|Hgt];
          [assumption|exfalso].
        revert Hall Hgt. generalize (Nat.pred w). clear Hlen.
        induction rb as [|y rb IH]; intros n Hall Hgt.
        -- destruct n; [simpl in Hgt; lia|]. rewrite app_nil_l_s in Hall.
           simpl in Hall. lia.
        -- destruct n; [simpl in Hgt; lia|]. rewrite app_cons_s in Hall.
           simpl in Hall, Hgt. destruct Hall as [_ Hall].
           apply (IH n Hall). lia.
    + cbn [Strings.last_index]. apply high_prefix_S in Hk as [_ Hk].
      destruct (IH _ Hk) as (i & -> & Hlo & Hhi).
      exists i. simpl. split; [reflexivity | lia].
Qed.

Lemma take_bytes_app a c b n :
  (String.length a < n)%nat →
  ∃ b', take_bytes n (a +:+ String c b) = a +:+ String c b'.
Proof.
  revert n; induction a as [|x a IH]; intros n Hn.
  - destruct n; [simpl in Hn; lia|]. rewrite app_nil_l_s. simpl. eauto.
  - destruct n; [simpl in Hn; lia|]. rewrite app_cons_s. simpl.
    destruct (IH n) as [b' ->]; [simpl in Hn; lia|]. eauto.
Qed.

Lemma drop_bytes_nonempty i s :
  (i < String.length s)%nat → ∃ d r, drop_bytes i s = String d r.
Proof.
  revert i; induction s as [|c s IH]; intros i Hi; [simpl in Hi; lia|].
  destruct i; simpl; [eauto | apply IH; simpl in Hi; lia].
Qed.

Lemma TrimRightSpace_keeps a c b :
  plain c → ∃ b', Strings.TrimRightSpace (a +:+ String c b) = a +:+ String c b'.
Proof.
  intros Hc. unfold Strings.TrimRightSpace.
  rewrite rev_bytes_app. simpl rev_bytes. rewrite (rev_bytes_acc (String c _)).
  rewrite app_assoc_s, app_cons_s, app_nil_l_s.
  destruct (last_index_keeps (rev_bytes EmptyString b) 0 c
              (rev_bytes EmptyString a) Hc (high_prefix_0 _))
    as (i & -> & Hlo & Hhi).
  rewrite length_rev_bytes in Hlo. simpl in Hlo.
  rewrite length_app_s in Hhi. simpl in Hhi.
  rewrite !length_rev_bytes in Hhi. simpl in Hhi.
  destruct (drop_bytes_nonempty i (a +:+ String c b)) as (d & r & Hrest).
  { rewrite length_app_s. simpl. lia. }
  rewrite Hrest.
  destruct (Utf8.RuneSelf <=? code d).
  - destruct (Utf8.DecodeRuneInString (String d r)) as [rn w] eqn:Hd.
    apply decode_spec in Hd as (_ & Hpos & _).
    specialize (Hpos ltac:(discriminate)). simpl.
    apply take_bytes_app. lia.
  - apply take_bytes_app. lia.
Qed.

Lemma TrimSpace_keeps a c1 m c2 b :
  plain c1 → plain c2 →
  ∃ a' b', Strings.TrimSpace (a +:+ String c1 (m +:+ String c2 b))
           = a' +:+ String c1 (m +:+ String c2 b').
Proof.
  intros H1 H2. unfold Strings.TrimSpace, Strings.TrimLeftSpace.
  destruct (trim_left_keeps a 0 c1 (m +:+ String c2 b) H1 (high_prefix_0 _))
    as [a' ->].
  destruct (TrimRightSpace_keeps (a' +:+ String c1 m) c2 b H2) as [b' Hb].
  exists a', b'. rewrite app_assoc_s, app_cons_s in Hb.
  now rewrite Hb, app_assoc_s, app_cons_s.
Qed.

(** [strings.TrimSpace] cuts nothing out of a piece of text that begins and
    ends with ASCII characters other than white space. *)
Lemma TrimSpace_keeps_PORTER a b :
  ∃ a' b', Strings.TrimSpace (a +:+ "[PORTER]" +:+ b)
           = a' +:+ "[PORTER]" +:+ b'.
Proof.
  apply (TrimSpace_keeps a "[" "PORTER" "]" b); split; vm_compute; reflexivity.
Qed.

(** ** The regular-expression fragment *)

Lemma search_bounds p pos skip s a0 a1 :
  Regex.search p pos skip s = Some (a0, a1) → (pos <= a0 ∧ a0 <= a1)%nat.
Proof.
  revert pos skip; induction s as [|c s IH]; intros pos skip Hs.
  - destruct skip; simpl in Hs; [|discriminate].
    destruct (Regex.match_here p pos "") as [w|]; [|discriminate].
    injection Hs as <- <-. lia.
  - destruct skip as [|k]; simpl in Hs.
    + destruct (Regex.match_here p pos (String c s)) as [w|].
      * injection Hs as <- <-. lia.
      * apply IH in Hs. lia.
    + apply IH in Hs. lia.
Qed.

Lemma replaceAll_fuel p src repl fuel lastMatchEnd searchPos :
  (String.length src + 1 - searchPos < fuel)%nat →
  is_Some (Regex.replaceAll fuel p src repl lastMatchEnd searchPos).
Proof.
  revert lastMatchEnd searchPos; induction fuel as [|f IH];
    intros lastMatchEnd searchPos Hf; [lia|].
  simpl. destruct (String.length src <? searchPos)%nat eqn:Hend; [eauto|].
  apply Nat.ltb_ge in Hend.
  destruct (Regex.doExecute p src searchPos) as [[a0 a1]|] eqn:Hx; [|eauto].
  apply search_bounds in Hx as [H0 H1].
  apply fmap_is_Some, IH.
  repeat case_match; rewrite ?Nat.ltb_lt, ?Nat.ltb_ge in *; lia.
Qed.

(** The loop of [replaceAll] never runs out of the rounds
    [ReplaceAllString] gives it. *)
Lemma replaceAll_terminates p src repl :
  Regex.replaceAll (String.length src + 2) p src repl 0 0
  = Some (Regex.ReplaceAllString p src repl).
Proof.
  unfold Regex.ReplaceAllString.
  destruct (replaceAll_fuel p src repl (String.length src + 2) 0 0) as [r ->];
    [lia | reflexivity].
Qed.

Lemma fold_eq_refl a : Regex.fold_eq a a = true.
Proof.
  unfold Regex.fold_eq. rewrite N.ltb_irrefl, N.eqb_refl. reflexivity.
Qed.

Lemma Regex_EqualFold_refl s : Regex.EqualFold s s = true.
Proof.
  induction s as [|c s IH]; simpl; [reflexivity|].
  now rewrite fold_eq_refl, IH.
Qed.

(** The executable runtime satisfies the law. *)
#[export] Instance AsciiRuntimeLaws : GoRuntimeLaws AsciiRuntime.
Proof. constructor. exact Regex_EqualFold_refl. Qed.

(** ** The loop over the rules *)

Section MirrorFacts.
Context {rt : GoRuntime}.

(** The function [applyRules] computes the outcome of the loop. *)
Lemma rangeLoop_applyRules order target registries :
  rangeLoop order target registries (applyRules order target registries).
Proof.
  revert target registries; induction order as [|[k v] rest IH];
    intros target registries; simpl.
  - constructor.
  - unfold MustCompile. destruct (Compile k) as [re|] eqn:Hk.
    + econstructor; [exact Hk | apply IH].
    + now constructor.
Qed.

(** The loop has one outcome. *)
Lemma rangeLoop_deterministic order target registries out1 out2 :
  rangeLoop order target registries out1 →
  rangeLoop order target registries out2 →
  out1 = out2.
Proof.
  intros H1; revert out2.
  induction H1 as [t r | k v rest t r re out Hk _ IH | k v rest t r Hk];
    intros out2 H2; inversion H2; subst; try congruence.
  apply IH. replace re with re0 by congruence. assumption.
Qed.

Lemma rewrites_rewrite order config issues :
  rewrites order config issues (rewrite order config issues).
Proof.
  unfold rewrite.
  destruct (Strings.ContainsAny (originOf issues) "@") eqn:Hat.
  - now constructor.
  - pose proof (rangeLoop_applyRules order (originOf issues) []) as Hloop.
    destruct (applyRules order (originOf issues) []) as [[t regs]|msg].
    + destruct (EqualFold t (originOf issues)) eqn:Hfold.
      * now apply (rewrites_unchanged order config issues t regs).
      * now apply (rewrites_changed order config issues t regs).
    + now constructor.
Qed.

(** The loop returns when every key compiles, and panics on a key that
    does not. *)
Lemma applyRules_Return order target registries :
  Forall (λ kv, is_Some (Compile kv.1)) order →
  ∃ t, applyRules order target registries
       = Return (t, registries ++ order.*1).
Proof.
  revert target registries; induction order as [|[k v] rest IH];
    intros target registries Hall; simpl.
  - exists target. now rewrite app_nil_r.
  - inversion Hall as [|? ? [re Hk] Hrest]; subst. simpl in Hk.
    unfold MustCompile. rewrite Hk.
    destruct (IH (ReplaceAllString re target v) (registries ++ [k]) Hrest)
      as [t Ht].
    exists t. rewrite Ht. now rewrite <- app_assoc.
Qed.

Lemma applyRules_Panic order target registries :
  Exists (λ kv, Compile kv.1 = None) order →
  ∃ k, k ∈ order.*1 ∧ Compile k = None
       ∧ applyRules order target registries
         = Panic ("regexp: Compile(" +:+ k +:+ ")").
Proof.
  revert target registries; induction order as [|[k v] rest IH];
    intros target registries Hex; simpl.
  - inversion Hex.
  - unfold MustCompile. destruct (Compile k) as [re|] eqn:Hk.
    + inversion Hex as [? ? Hbad|? ? Hrest]; subst; [simpl in Hbad; congruence|].
      destruct (IH (ReplaceAllString re target v) (registries ++ [k]) Hrest)
        as (k' & Hin & Hnone & Heq).
      exists k'. split; [now right | now split].
    + exists k. split; [now left | now split].
Qed.

End MirrorFacts.

(** A map with one entry is ranged over in one way. *)
Lemma ranges_singleton (k v : string) (order : list (string * string)) :
  ranges {[ k := v ]} order ↔ order = [(k, v)].
Proof.
  unfold ranges. rewrite map_to_list_singleton. split.
  - intros Hp. now apply Permutation_singleton_r.
  - now intros ->.
Qed.

Lemma ranges_empty (order : list (string * string)) :
  ranges ∅ order ↔ order = [].
Proof.
  unfold ranges. rewrite map_to_list_empty. split.
  - apply Permutation_nil_r.
  - now intros ->.
Qed.

(** ** The rewriting part of [mirrorByIssues] *)

Lemma replace_slash (t : string) :
  Strings.replace_old "/" "." None 0 t = map_bytes slash_to_dot t.
Proof.
  induction t as [|c r IH]; [reflexivity|].
  cbn [Strings.replace_old map_bytes Strings.exhausted Strings.spend
       Strings.HasPrefix negb andb String.length Nat.pred].
  unfold slash_to_dot at 1.
  destruct (Ascii.eqb c "/"); cbn [andb];
    rewrite ?app_cons_s, ?app_nil_l_s, IH; reflexivity.
Qed.

Lemma flatten_map_bytes (t : string) : flatten t = map_bytes slash_to_dot t.
Proof. apply replace_slash. Qed.

Lemma flatten_no_slash (t : string) : Strings.has_byte "/" (flatten t) = false.
Proof.
  rewrite flatten_map_bytes. induction t as [|c r IH]; [reflexivity|].
  simpl. rewrite IH, orb_false_r. unfold slash_to_dot.
  destruct (Ascii.eqb c "/") eqn:Hc; [reflexivity | exact Hc].
Qed.

Section Claims.
Context {rt : GoRuntime}.

(** C2 (as amended): [rewrite] always terminates.  It returns one of the
    three results whenever the source contains ['@'] or every pattern key
    of the rules compiles; when the source has no ['@'] and some key is
    not a valid regular expression it panics, at rewrite time, in
    [regexp.MustCompile] on such a key.  Loading the rules does not look
    at the patterns: the parsed document is taken as it is. *)
Theorem rewrite_returns_or_panics order config issues :
  (Strings.ContainsAny (originOf issues) "@" = true
   ∨ Forall (λ kv, is_Some (Compile kv.1)) order →
   ∃ r, rewrite order config issues = Return r)
  ∧ (Strings.ContainsAny (originOf issues) "@" = false
     ∧ Exists (λ kv, Compile kv.1 = None) order →
     ∃ k, k ∈ order.*1 ∧ Compile k = None
          ∧ rewrite order config issues
            = Panic ("regexp: Compile(" +:+ k +:+ ")"))
  ∧ (∀ rules, loadRules (Unmarshalled rules) = rules).
Proof.
  split; [|split]; [| |reflexivity].
  - intros Hcase. unfold rewrite.
    destruct (Strings.ContainsAny (originOf issues) "@"); [eauto|].
    destruct Hcase as [?|Hall]; [discriminate|].
    destruct (applyRules_Return order (originOf issues) [] Hall) as [t ->].
    destruct (EqualFold t (originOf issues)); eauto.
  - intros [Hat Hex]. unfold rewrite. rewrite Hat.
    destruct (applyRules_Panic order (originOf issues) [] Hex)
      as (k & Hin & Hnone & ->).
    eauto.
Qed.

(** C3: for a source without ['@'], when the target accumulated over all
    the rules folds to the source (case-insensitively), the result is
    NoMatch -- whatever the rules did on the way. *)
Theorem unchanged_target_is_NoMatch order config issues target registries :
  Strings.ContainsAny (originOf issues) "@" = false →
  applyRules order (originOf issues) [] = Return (target, registries) →
  EqualFold target (originOf issues) = true →
  rewrite order config issues
  = Return (NoMatch ("@" +:+ Login issues +:+ " 暂不支持同步"
                       +:+ originOf issues +:+ ",目前仅支持同步 `"
                       +:+ Strings.Join registries " ," +:+ "`镜像")
                    (originOf issues) target).
Proof.
  intros Hat Hloop Hfold. unfold rewrite. now rewrite Hat, Hloop, Hfold.
Qed.

(** C4: a source that contains ['@'] is rejected as a digest reference,
    for every sequence of rules -- none of them is compiled or applied. *)
Theorem digest_is_Rejected order config issues :
  Strings.ContainsAny (originOf issues) "@" = true →
  rewrite order config issues
  = Return (Rejected ("@" +:+ Login issues +:+ " 不支持同步带摘要信息的镜像")
                     (originOf issues) (originOf issues)).
Proof. intros Hat. unfold rewrite. now rewrite Hat. Qed.

Lemma withPrefixes_settings config config' t :
  RegistryNamespace config = RegistryNamespace config' →
  Registry config = Registry config' →
  withPrefixes config t = withPrefixes config' t.
Proof. intros Hns Hreg. unfold withPrefixes. now rewrite Hns, Hreg. Qed.

(** C7: two runs that range over the same rules in the same order, on the
    same source and with the same namespace and registry, end in the same
    variant with the same image names, whatever else the configurations
    and the issues hold; when the requester is the same too, the two
    results are the same byte for byte. *)
Theorem rewrites_deterministic order config config' issues issues' r1 r2 :
  originOf issues = originOf issues' →
  RegistryNamespace config = RegistryNamespace config' →
  Registry config = Registry config' →
  rewrites order config issues r1 →
  rewrites order config' issues' r2 →
  verdictOf r1 = verdictOf r2
  ∧ (Login issues = Login issues' → r1 = r2).
Proof.
  intros Ho Hns Hreg H1 H2.
  destruct H1 as [Hat1 | m1 Hat1 L1 | t1 g1 Hat1 L1 F1 | t1 g1 Hat1 L1 F1];
    destruct H2 as [Hat2 | m2 Hat2 L2 | t2 g2 Hat2 L2 F2 | t2 g2 Hat2 L2 F2];
    rewrite <- ?Ho in *; try congruence;
    try (pose proof (rangeLoop_deterministic _ _ _ _ _ L1 L2) as E;
         try discriminate E; injection E as ->; subst; try congruence).
  - split; [reflexivity | now intros ->].
  - now split.
  - split; [reflexivity | now intros ->].
  - rewrite (withPrefixes_settings config config') by assumption. now split.
Qed.

(** C8 (as amended): with no rules, every source without ['@'] is
    NoMatch. *)
Theorem no_rules_is_NoMatch `{!GoRuntimeLaws rt} order config issues :
  ranges ∅ order →
  Strings.ContainsAny (originOf issues) "@" = false →
  rewrite order config issues
  = Return (NoMatch ("@" +:+ Login issues +:+ " 暂不支持同步"
                       +:+ originOf issues +:+ ",目前仅支持同步 ``镜像")
                    (originOf issues) (originOf issues)).
Proof.
  intros Hr Hat. apply ranges_empty in Hr as ->.
  unfold rewrite. rewrite Hat. simpl. now rewrite EqualFold_refl.
Qed.

(** C9: on the digest rejection, the triple [mirrorByIssues] returns has
    the target equal to the origin: the title without its first
    [[PORTER]], trimmed, and nothing else done to it. *)
Theorem digest_target_is_origin (d : Docker) order config issues :
  Strings.ContainsAny (originOf issues) "@" = true →
  mirrorByIssues d order issues config
  = Return (Some ("@" +:+ Login issues +:+ " 不支持同步带摘要信息的镜像"),
            originOf issues, originOf issues).
Proof.
  intros Hat. unfold mirrorByIssues, rewrite. now rewrite Hat.
Qed.

End Claims.

(** ** [strings.Replace] with a budget of one *)

Lemma replace_old_exhausted old new k s :
  Strings.replace_old old new (Some 0%nat) k s = drop_bytes k s.
Proof.
  revert k; induction s as [|c r IH]; intros [|k]; simpl; try reflexivity.
  - now rewrite IH.
  - apply IH.
Qed.

Lemma no_occurrence_in_empty old a b :
  old ≠ EmptyString → EmptyString ≠ a +:+ old +:+ b.
Proof.
  intros Hne Heq. apply (f_equal String.length) in Heq.
  rewrite !length_app_s in Heq. destruct old; [congruence | simpl in Heq; lia].
Qed.

Lemma replace_once old new s :
  old ≠ EmptyString →
  (∃ pre post, first_occurrence old s pre post
     ∧ Strings.replace_old old new (Some 1%nat) 0 s = pre +:+ new +:+ post)
  ∨ ((∀ a b, s ≠ a +:+ old +:+ b)
     ∧ Strings.replace_old old new (Some 1%nat) 0 s = s).
Proof.
  intros Hne. induction s as [|c r IH].
  - right. split; [intros a b; now apply no_occurrence_in_empty | reflexivity].
  - cbn [Strings.replace_old Strings.exhausted Strings.spend negb andb Nat.pred].
    destruct (Strings.HasPrefix (String c r) old) eqn:Hp.
    + left. apply HasPrefix_spec in Hp as [b Hb].
      exists EmptyString, b. split; [split; [exact Hb | intros; simpl; lia]|].
      rewrite replace_old_exhausted. rewrite app_nil_l_s. f_equal.
      destruct old as [|o old']; [congruence|].
      rewrite app_cons_s in Hb. injection Hb as -> ->.
      simpl. apply drop_bytes_app.
    + assert (Hhead : ∀ a b, String c r = a +:+ old +:+ b → a ≠ EmptyString).
      { intros a b Heq ->. rewrite app_nil_l_s in Heq.
        assert (Strings.HasPrefix (String c r) old = true) as Ht
          by (apply HasPrefix_spec; eauto).
        congruence. }
      destruct IH as [(pre & post & [Heq Hfirst] & Hrep) | [Hno Hrep]].
      * left. exists (String c pre), post. split; [split|].
        -- now rewrite app_cons_s, <- Heq.
        -- intros a b Hab. destruct a as [|x a].
           ++ now apply Hhead in Hab.
           ++ rewrite app_cons_s in Hab. injection Hab as -> Hab.
              apply Hfirst in Hab. simpl. lia.
        -- now rewrite Hrep, app_cons_s.
      * right. split; [|now rewrite Hrep].
        intros a b Hab. destruct a as [|x a].
        -- now apply Hhead in Hab.
        -- rewrite app_cons_s in Hab. injection Hab as -> Hab.
           now apply Hno in Hab.
Qed.

(** ** Rule loading *)

(** C6 (as amended): the six built-in patterns are the rule set only when
    the rules file could not be read or parsed.  When it was read and
    parsed, the rule set is the file's mapping and nothing else: a key the
    file does not give is absent, built-in or not. *)
Theorem loadRules_file_replaces_defaults :
  dom (loadRules ReadFailed)
  = {[ "^gcr.io"; "^docker.io"; "^k8s.gcr.io"; "^registry.k8s.io";
       "^quay.io"; "^ghcr.io" ]}
  ∧ loadRules UnmarshalFailed = loadRules ReadFailed
  ∧ (∀ fromFile k, loadRules (Unmarshalled fromFile) !! k = fromFile !! k).
Proof.
  split; [|split; reflexivity].
  simpl; unfold defaultRules. rewrite !dom_insert_L, dom_singleton_L.
  set_solver.
Qed.

(** C6, as stated, fails: a rules file with the one key [^example.com]
    leaves a rule set without [^gcr.io]. *)
Lemma loadRules_discards_defaults :
  loadRules (Unmarshalled {[ "^example.com" := "mirror" ]}) !! "^gcr.io" = None
  ∧ defaultRules !! "^gcr.io" = Some EmptyString.
Proof. split; vm_compute; reflexivity. Qed.

(** ** The examples of the specification, on the executable runtime *)

(** C1: on ["gcr.io/google-containers/pause:3.2"] with the single rule
    [^gcr.io -> (empty)] and namespace ["mirror"], the code does not
    return ["mirror/google-containers.pause:3.2"]: the slash left in front
    by the empty replacement is flattened into a dot, and the target is
    ["mirror/.google-containers.pause:3.2"].  The [sed] program of
    [pull-k8s-image.sh] maps the same image to a name with no such dot. *)
Theorem gcr_rule_leaves_leading_dot :
  let config := flagsConfig EmptyString "mirror" {[ "^gcr.io" := EmptyString ]} in
  let issues := issueOf "[PORTER] gcr.io/google-containers/pause:3.2" in
  (∀ order, ranges (Rules config) order →
            rewrite order config issues
            = Return (Rewritten "gcr.io/google-containers/pause:3.2"
                                "mirror/.google-containers.pause:3.2"))
  ∧ mirror_img "gcr.io/google-containers/pause:3.2"
    = "ty13363959807/google-containers.pause:3.2".
Proof.
  split; [|vm_compute; reflexivity].
  intros order Hr. apply ranges_singleton in Hr as ->.
  vm_compute. reflexivity.
Qed.

(** C5: flattening turns every ['/'] of the string the rules produced
    into ['.'], those the replacement text brought in included: the
    target of a Rewritten result is the prefixed byte-wise image of that
    string, and the rule [^k8s.gcr.io -> mirror/google-containers] takes
    ["k8s.gcr.io/pause:3.2"] to ["mirror.google-containers.pause:3.2"]. *)
Theorem flatten_covers_replacement_text :
  (∀ (rt : GoRuntime) order config issues o t,
      rewrite order config issues = Return (Rewritten o t) →
      ∃ t' registries,
        applyRules order (originOf issues) [] = Return (t', registries)
        ∧ t = withPrefixes config (map_bytes slash_to_dot t'))
  ∧ (∀ t, Strings.has_byte "/" (flatten t) = false)
  ∧ (∀ order,
        ranges {[ "^k8s.gcr.io" := "mirror/google-containers" ]} order →
        applyRules order "k8s.gcr.io/pause:3.2" []
        = Return ("mirror/google-containers/pause:3.2", ["^k8s.gcr.io"])
        ∧ rewrite order
                  (flagsConfig EmptyString EmptyString
                     {[ "^k8s.gcr.io" := "mirror/google-containers" ]})
                  (issueOf "k8s.gcr.io/pause:3.2")
          = Return (Rewritten "k8s.gcr.io/pause:3.2"
                              "mirror.google-containers.pause:3.2")).
Proof.
  split; [|split; [exact flatten_no_slash|]].
  2: { intros order Hr. apply ranges_singleton in Hr as ->.
       split; vm_compute; reflexivity. }
  intros rt order config issues o t. unfold rewrite.
  destruct (Strings.ContainsAny (originOf issues) "@"); [discriminate|].
  destruct (applyRules order (originOf issues) []) as [[t' regs]|];
    [|discriminate].
  destruct (EqualFold t' (originOf issues)); [discriminate|].
  intros [= <- <-]. exists t', regs. now rewrite flatten_map_bytes.
Qed.

(** C2, as stated, fails: the rules file is loaded with the key
    [*.gcr.io], which is no regular expression, and the fault shows when
    an issue is rewritten. *)
Lemma invalid_pattern_panics_at_rewrite :
  let rules : gmap string string := {[ "*.gcr.io" := "mirror" ]} in
  Regex.parse "*.gcr.io" = Regex.SyntaxError
  ∧ loadRules (Unmarshalled rules) = rules
  ∧ rewrite (map_to_list rules) (flagsConfig EmptyString EmptyString rules)
            (issueOf "[PORTER] gcr.io/pause:3.2")
    = Panic "regexp: Compile(*.gcr.io)".
Proof. repeat split; vm_compute; reflexivity. Qed.

(** C8, as stated, fails: with no rules, a source with ['@'] is Rejected,
    not NoMatch. *)
Lemma no_rules_digest_is_Rejected :
  map_to_list (∅ : gmap string string) = []
  ∧ rewrite [] (flagsConfig EmptyString EmptyString ∅)
            (issueOf "[PORTER] gcr.io/foo/bar@sha256:abcd")
    = Return (Rejected "@requester 不支持同步带摘要信息的镜像"
                       "gcr.io/foo/bar@sha256:abcd"
                       "gcr.io/foo/bar@sha256:abcd").
Proof. split; vm_compute; reflexivity. Qed.

(** The other examples of the specification: a registry no built-in rule
    knows, and a name that is already a rewriting result, are NoMatch
    under the built-in rules. *)
Example unknown_registry_is_NoMatch :
  ∃ err,
    rewrite (map_to_list defaultRules)
            (flagsConfig EmptyString "mirror" defaultRules)
            (issueOf "[PORTER] example.com/foo:v1")
    = Return (NoMatch err "example.com/foo:v1" "example.com/foo:v1").
Proof. eexists. vm_compute. reflexivity. Qed.

Example rewritten_form_is_NoMatch :
  ∃ err,
    rewrite (map_to_list defaultRules)
            (flagsConfig EmptyString "mirror" defaultRules)
            (issueOf "[PORTER] mirror/quay.coreos.etcd:v3.5.0")
    = Return (NoMatch err "mirror/quay.coreos.etcd:v3.5.0"
                      "mirror/quay.coreos.etcd:v3.5.0").
Proof. eexists. vm_compute. reflexivity. Qed.

(** [strings.TrimSpace] on the white space of Unicode: a tab and a
    no-break space (U+00A0, bytes C2 A0) in front of the name, an
    ideographic space (U+3000, bytes E3 80 80) and a line feed behind. *)
Example TrimSpace_unicode :
  Strings.TrimSpace
    (String (byte 9) (String (byte 194) (String (byte 160)
       ("gcr.io/pause:3.2"
        +:+ String (byte 227) (String (byte 128) (String (byte 128)
              (String (byte 10) EmptyString)))))))
  = "gcr.io/pause:3.2".
Proof. vm_compute. reflexivity. Qed.

(** A byte of a broken encoding is no white space: it stays. *)
Example TrimSpace_invalid_utf8 :
  Strings.TrimSpace (" a" +:+ String (byte 194) " ")
  = "a" +:+ String (byte 194) EmptyString.
Proof. vm_compute. reflexivity. Qed.

(** The order of the range shows in the result: the same two rules, the
    same source, two targets. *)
Remark range_order_matters :
  let a := ("^gcr.io", "k8s.gcr.io") in
  let b := ("^k8s.gcr.io", "google-containers") in
  [a; b] ≡ₚ [b; a]
  ∧ applyRules [a; b] "gcr.io/pause:3.2" []
    = Return ("google-containers/pause:3.2", ["^gcr.io"; "^k8s.gcr.io"])
  ∧ applyRules [b; a] "gcr.io/pause:3.2" []
    = Return ("k8s.gcr.io/pause:3.2", ["^k8s.gcr.io"; "^gcr.io"]).
Proof. split; [apply perm_swap | split; vm_compute; reflexivity]. Qed.

(** ** Instances of the theorems above *)

Lemma rewrite_returns_or_panics_witness :
  (∃ r, rewrite (map_to_list defaultRules)
                (flagsConfig EmptyString "mirror" defaultRules)
                (issueOf "[PORTER] quay.io/coreos/etcd:v3.5.0") = Return r)
  ∧ (∃ k, k ∈ [("*.gcr.io", "mirror")].*1 ∧ Compile k = None
          ∧ rewrite [("*.gcr.io", "mirror")]
                    (flagsConfig EmptyString EmptyString ∅)
                    (issueOf "gcr.io/pause:3.2")
            = Panic ("regexp: Compile(" +:+ k +:+ ")")).
Proof.
  split.
  - apply (rewrite_returns_or_panics (map_to_list defaultRules)).
    right. vm_compute. repeat constructor; eexists; reflexivity.
  - apply (rewrite_returns_or_panics [("*.gcr.io", "mirror")]).
    split; [reflexivity | left; reflexivity].
Defined.

(** A rule that matches and rewrites the source into another spelling of
    itself: the result is NoMatch. *)
Lemma unchanged_target_is_NoMatch_witness :
  rewrite [("^gcr.io", "GCR.IO")]
          (flagsConfig EmptyString "mirror" {[ "^gcr.io" := "GCR.IO" ]})
          (issueOf "[PORTER] gcr.io/pause:3.2")
  = Return (NoMatch ("@" +:+ "requester" +:+ " 暂不支持同步"
                       +:+ "gcr.io/pause:3.2" +:+ ",目前仅支持同步 `"
                       +:+ Strings.Join ["^gcr.io"] " ," +:+ "`镜像")
                    "gcr.io/pause:3.2" "GCR.IO/pause:3.2").
Proof.
  apply (unchanged_target_is_NoMatch
           [("^gcr.io", "GCR.IO")]
           (flagsConfig EmptyString "mirror" {[ "^gcr.io" := "GCR.IO" ]})
           (issueOf "[PORTER] gcr.io/pause:3.2")
           "GCR.IO/pause:3.2" ["^gcr.io"]);
    vm_compute; reflexivity.
Defined.

(** A digest reference and a key that would not compile: Rejected, the
    key never reached. *)
Lemma digest_is_Rejected_witness :
  rewrite [("*.gcr.io", "mirror")]
          (flagsConfig EmptyString EmptyString {[ "*.gcr.io" := "mirror" ]})
          (issueOf "[PORTER] gcr.io/foo/bar@sha256:abcd")
  = Return (Rejected ("@" +:+ "requester" +:+ " 不支持同步带摘要信息的镜像")
                     "gcr.io/foo/bar@sha256:abcd"
                     "gcr.io/foo/bar@sha256:abcd").
Proof.
  apply (digest_is_Rejected
           [("*.gcr.io", "mirror")]
           (flagsConfig EmptyString EmptyString {[ "*.gcr.io" := "mirror" ]})
           (issueOf "[PORTER] gcr.io/foo/bar@sha256:abcd")).
  vm_compute. reflexivity.
Defined.

Lemma rewrites_deterministic_witness :
  verdictOf
    (rewrite (map_to_list defaultRules)
       (flagsConfig "registry.example.com" "mirror" defaultRules)
       (issueOf "[PORTER] quay.io/coreos/etcd:v3.5.0"))
  = verdictOf
      (rewrite (map_to_list defaultRules)
         (secretsConfig "registry.example.com" "mirror")
         {| Title := "quay.io/coreos/etcd:v3.5.0 [PORTER]";
            Login := "somebody" |})
  ∧ (Login (issueOf "[PORTER] quay.io/coreos/etcd:v3.5.0")
     = Login {| Title := "quay.io/coreos/etcd:v3.5.0 [PORTER]";
                Login := "somebody" |} →
     rewrite (map_to_list defaultRules)
       (flagsConfig "registry.example.com" "mirror" defaultRules)
       (issueOf "[PORTER] quay.io/coreos/etcd:v3.5.0")
     = rewrite (map_to_list defaultRules)
         (secretsConfig "registry.example.com" "mirror")
         {| Title := "quay.io/coreos/etcd:v3.5.0 [PORTER]";
            Login := "somebody" |}).
Proof.
  apply (rewrites_deterministic (rt:=AsciiRuntime) (map_to_list defaultRules)
           (flagsConfig "registry.example.com" "mirror" defaultRules)
           (secretsConfig "registry.example.com" "mirror")
           (issueOf "[PORTER] quay.io/coreos/etcd:v3.5.0")
           {| Title := "quay.io/coreos/etcd:v3.5.0 [PORTER]";
              Login := "somebody" |}).
  - vm_compute. reflexivity.
  - reflexivity.
  - reflexivity.
  - apply rewrites_rewrite.
  - apply rewrites_rewrite.
Defined.

Lemma no_rules_is_NoMatch_witness :
  rewrite [] (flagsConfig EmptyString "mirror" ∅)
          (issueOf "[PORTER] example.com/foo:v1")
  = Return (NoMatch ("@" +:+ "requester" +:+ " 暂不支持同步"
                       +:+ "example.com/foo:v1" +:+ ",目前仅支持同步 ``镜像")
                    "example.com/foo:v1" "example.com/foo:v1").
Proof.
  apply (no_rules_is_NoMatch [] (flagsConfig EmptyString "mirror" ∅)
           (issueOf "[PORTER] example.com/foo:v1")).
  - unfold ranges. now rewrite map_to_list_empty.
  - vm_compute. reflexivity.
Defined.

Lemma digest_target_is_origin_witness :
  mirrorByIssues
    {| dockerLogin := λ _, None; dockerPull := λ _, None;
       dockerTag := λ _ _, None; dockerPush := λ _ _, None |}
    (map_to_list defaultRules)
    (issueOf "[PORTER] gcr.io/foo/bar@sha256:abcd")
    (flagsConfig "registry.example" "mirror" defaultRules)
  = Return (Some ("@" +:+ "requester" +:+ " 不支持同步带摘要信息的镜像"),
            "gcr.io/foo/bar@sha256:abcd", "gcr.io/foo/bar@sha256:abcd").
Proof.
  apply (digest_target_is_origin
           {| dockerLogin := λ _, None; dockerPull := λ _, None;
              dockerTag := λ _ _, None; dockerPush := λ _ _, None |}
           (map_to_list defaultRules)
           (flagsConfig "registry.example" "mirror" defaultRules)
           (issueOf "[PORTER] gcr.io/foo/bar@sha256:abcd")).
  vm_compute. reflexivity.
Defined.

Lemma flatten_covers_replacement_text_witness :
  ∃ t' registries,
    applyRules [("^k8s.gcr.io", "mirror/google-containers")]
               (originOf (issueOf "[PORTER] k8s.gcr.io/pause:3.2")) []
    = Return (t', registries)
    ∧ "registry.example/mirror/mirror.google-containers.pause:3.2"
      = withPrefixes (flagsConfig "registry.example" "mirror" ∅)
                     (map_bytes slash_to_dot t').
Proof.
  apply (proj1 flatten_covers_replacement_text AsciiRuntime
           [("^k8s.gcr.io", "mirror/google-containers")]
           (flagsConfig "registry.example" "mirror" ∅)
           (issueOf "[PORTER] k8s.gcr.io/pause:3.2")
           "k8s.gcr.io/pause:3.2").
  vm_compute. reflexivity.
Defined.

(** * Further properties of [src/main.go] *)

(** ** The loop over the rules, whatever the order of the range *)

Section RuleOrder.
Context {rt : GoRuntime}.

Lemma applyRules_registries order target registries target' registries' :
  applyRules order target registries = Return (target', registries') →
  registries' = registries ++ order.*1.
Proof.
  revert target registries; induction order as [|[k v] rest IH];
    intros target registries; simpl.
  - intros [= _ <-]. now rewrite app_nil_r.
  - unfold MustCompile. destruct (Compile k) as [re|]; [|discriminate].
    intros Hrest%IH. now rewrite Hrest, <- app_assoc.
Qed.

Lemma applyRules_app l1 l2 target registries :
  applyRules (l1 ++ l2) target registries
  = match applyRules l1 target registries with
    | Return (t, regs) => applyRules l2 t regs
    | Panic msg => Panic msg
    end.
Proof.
  revert target registries; induction l1 as [|[k v] l1 IH];
    intros target registries; simpl; [reflexivity|].
  destruct (MustCompile k); [apply IH | reflexivity].
Qed.

Lemma applyRules_inert l s registries :
  Forall (λ kv, inert kv s) l →
  applyRules l s registries = Return (s, registries ++ l.*1).
Proof.
  revert registries; induction l as [|[k v] l IH]; intros registries Hall;
    simpl.
  - now rewrite app_nil_r.
  - inversion Hall as [|? ? (re & Hk & Hs) Hrest]; subst. simpl in Hk, Hs.
    unfold MustCompile. rewrite Hk, Hs, IH by exact Hrest.
    now rewrite <- app_assoc.
Qed.

(** One rule does something, the rules ranged over before it leave the
    source alone and the rules after it leave its result alone. *)
Lemma applyRules_single l1 k v l2 re s registries :
  Forall (λ kv, inert kv s) l1 →
  Compile k = Some re →
  Forall (λ kv, inert kv (ReplaceAllString re s v)) l2 →
  applyRules (l1 ++ (k, v) :: l2) s registries
  = Return (ReplaceAllString re s v,
            registries ++ (l1 ++ (k, v) :: l2).*1).
Proof.
  intros H1 Hk H2. rewrite applyRules_app, applyRules_inert by exact H1.
  simpl. unfold MustCompile. rewrite Hk, applyRules_inert by exact H2.
  rewrite fmap_app. simpl. now rewrite <- !app_assoc.
Qed.

(** A range over a map meets each key once. *)
Lemma ranges_split (rules : gmap string string) order k v :
  ranges rules order → rules !! k = Some v →
  ∃ l1 l2, order = l1 ++ (k, v) :: l2
           ∧ ∀ k' v', (k', v') ∈ l1 ++ l2 →
                      k' ≠ k ∧ rules !! k' = Some v'.
Proof.
  unfold ranges. intros Hr Hk.
  assert (Hin : (k, v) ∈ order)
    by (rewrite Hr; now apply elem_of_map_to_list).
  apply list_elem_of_split in Hin as (l1 & l2 & ->).
  exists l1, l2. split; [reflexivity|]. intros k' v' Hin.
  assert (Hnd : NoDup ((l1 ++ (k, v) :: l2).*1))
    by (rewrite Hr; apply NoDup_fst_map_to_list).
  split.
  - intros ->. rewrite fmap_app in Hnd. simpl in Hnd.
    apply NoDup_app in Hnd as (_ & Hdisj & [Hk2 _]%NoDup_cons).
    apply elem_of_app in Hin as [Hin|Hin].
    + apply (Hdisj k); [now apply (list_elem_of_fmap_2 fst _ (k, v')) | left].
    + apply Hk2. now apply (list_elem_of_fmap_2 fst _ (k, v')).
  - apply elem_of_map_to_list. rewrite <- Hr.
    apply elem_of_app in Hin as [Hin|Hin];
      apply elem_of_app; [now left | right; now right].
Qed.

(** X1: when one rule of the set rewrites the source into a string that
    [strings.EqualFold] tells from it, and every other rule leaves both
    the source and the rewritten string alone, the result is the same
    Rewritten target in every order the map can be ranged over. *)
Theorem single_effective_rule_any_order
        (rules : gmap string string) order config issues k v re :
  rules !! k = Some v →
  Compile k = Some re →
  (∀ k' v', k' ≠ k → rules !! k' = Some v' →
            inert (k', v') (originOf issues)
            ∧ inert (k', v') (ReplaceAllString re (originOf issues) v)) →
  EqualFold (ReplaceAllString re (originOf issues) v) (originOf issues)
  = false →
  Strings.ContainsAny (originOf issues) "@" = false →
  ranges rules order →
  rewrite order config issues
  = Return (Rewritten (originOf issues)
              (withPrefixes config
                 (flatten (ReplaceAllString re (originOf issues) v)))).
Proof.
  intros Hk Hre Hothers Hfold Hat Hr.
  destruct (ranges_split rules order k v Hr Hk) as (l1 & l2 & -> & Hrest).
  unfold rewrite. rewrite Hat.
  rewrite (applyRules_single l1 k v l2 re); [now rewrite Hfold | | exact Hre |].
  - apply Forall_forall. intros [k' v'] Hin.
    destruct (Hrest k' v') as [Hne Hl]; [apply elem_of_app; now left|].
    now apply Hothers.
  - apply Forall_forall. intros [k' v'] Hin.
    destruct (Hrest k' v') as [Hne Hl]; [apply elem_of_app; now right|].
    now apply Hothers.
Qed.

(** X3: when every rule of the set compiles and leaves the source as it
    is, the result is NoMatch in every order, the target is the source,
    and the message lists the keys in the order of the range. *)
Theorem inert_rules_are_NoMatch `{!GoRuntimeLaws rt}
        (rules : gmap string string) order config issues :
  (∀ k v, rules !! k = Some v → inert (k, v) (originOf issues)) →
  Strings.ContainsAny (originOf issues) "@" = false →
  ranges rules order →
  rewrite order config issues
  = Return (NoMatch ("@" +:+ Login issues +:+ " 暂不支持同步"
                       +:+ originOf issues +:+ ",目前仅支持同步 `"
                       +:+ Strings.Join order.*1 " ," +:+ "`镜像")
                    (originOf issues) (originOf issues)).
Proof.
  intros Hinert Hat Hr. unfold rewrite. rewrite Hat.
  rewrite applyRules_inert, EqualFold_refl; [reflexivity|].
  apply Forall_forall. intros [k v] Hin. apply Hinert.
  apply elem_of_map_to_list. unfold ranges in Hr. now rewrite <- Hr.
Qed.

(** X4: one key of the rule set that is no regular expression makes the
    rewriting of every source without ['@'] panic, in every order of the
    range; the key named by the panic is one of the set that does not
    compile. *)
Theorem invalid_key_panics_any_order
        (rules : gmap string string) order config issues k v :
  rules !! k = Some v →
  Compile k = None →
  Strings.ContainsAny (originOf issues) "@" = false →
  ranges rules order →
  ∃ k', is_Some (rules !! k') ∧ Compile k' = None
        ∧ rewrite order config issues
          = Panic ("regexp: Compile(" +:+ k' +:+ ")").
Proof.
  intros Hk Hbad Hat Hr. unfold rewrite. rewrite Hat.
  destruct (applyRules_Panic order (originOf issues) [])
    as (k' & Hin & Hnone & ->).
  - apply Exists_exists. exists (k, v). split; [|exact Hbad].
    unfold ranges in Hr. rewrite Hr. now apply elem_of_map_to_list.
  - exists k'. split; [|now split].
    apply list_elem_of_fmap in Hin as ([k0 v0] & -> & Hin).
    unfold ranges in Hr. rewrite Hr in Hin.
    apply elem_of_map_to_list in Hin. simpl. eauto.
Qed.

(** X5: a NoMatch result names the origin image name and, between the
    backquotes of its message, every key of the rule set once, joined
    by [" ,"] in the order of the range. *)
Theorem NoMatch_lists_the_keys
        (rules : gmap string string) order config issues err o t :
  rewrite order config issues = Return (NoMatch err o t) →
  ranges rules order →
  o = originOf issues
  ∧ err = "@" +:+ Login issues +:+ " 暂不支持同步" +:+ o
          +:+ ",目前仅支持同步 `" +:+ Strings.Join order.*1 " ,"
          +:+ "`镜像"
  ∧ NoDup order.*1
  ∧ ∀ k, k ∈ order.*1 ↔ is_Some (rules !! k).
Proof.
  unfold rewrite, ranges. intros Hrw Hr.
  destruct (Strings.ContainsAny (originOf issues) "@"); [discriminate|].
  destruct (applyRules order (originOf issues) []) as [[t' regs]|] eqn:Hloop;
    [|discriminate].
  apply applyRules_registries in Hloop. simpl in Hloop. subst regs.
  destruct (EqualFold t' (originOf issues)); [|discriminate].
  injection Hrw as <- <- <-.
  split; [reflexivity | split; [reflexivity | split]].
  - rewrite Hr. apply NoDup_fst_map_to_list.
  - intros k. rewrite Hr. split.
    + intros ([k0 v0] & -> & Hin)%list_elem_of_fmap.
      apply elem_of_map_to_list in Hin. simpl. eauto.
    + intros [v Hv]. apply (list_elem_of_fmap_2 fst _ (k, v)).
      now apply elem_of_map_to_list.
Qed.

End RuleOrder.

(** ** Patterns that begin with [^], in the executable fragment *)

Lemma search_anchored q pos skip s :
  (0 < pos)%nat → Regex.search (Regex.BeginText :: q) pos skip s = None.
Proof.
  revert pos skip; induction s as [|c s IH]; intros pos skip Hpos.
  - destruct skip; simpl; [|reflexivity].
    destruct pos; [lia | reflexivity].
  - destruct skip; simpl.
    + destruct pos; [lia|]. simpl. apply IH. lia.
    + apply IH. lia.
Qed.

Lemma doExecute_anchored_0 q src :
  Regex.doExecute (Regex.BeginText :: q) src 0
  = (λ w, (0%nat, w)) <$> Regex.match_here q 0 src.
Proof.
  unfold Regex.doExecute. simpl drop_bytes.
  destruct src as [|c r]; simpl.
  - destruct (Regex.match_here q 0 ""); reflexivity.
  - destruct (Regex.match_here q 0 (String c r)); [reflexivity|].
    apply search_anchored. lia.
Qed.

Lemma replaceAll_anchored_late q src repl fuel lastMatchEnd searchPos :
  (0 < searchPos)%nat →
  Regex.replaceAll (S fuel) (Regex.BeginText :: q) src repl
                   lastMatchEnd searchPos
  = Some (drop_bytes lastMatchEnd src).
Proof.
  intros Hpos. cbn [Regex.replaceAll].
  destruct (String.length src <? searchPos)%nat; [reflexivity|].
  unfold Regex.doExecute. now rewrite search_anchored.
Qed.

Lemma ReplaceAllString_anchored q src repl :
  Regex.ReplaceAllString (Regex.BeginText :: q) src repl
  = match Regex.match_here q 0 src with
    | Some w => Regex.expand (take_bytes w src) 0 repl +:+ drop_bytes w src
    | None => src
    end.
Proof.
  unfold Regex.ReplaceAllString.
  replace (String.length src + 2)%nat with (S (S (String.length src))) by lia.
  change (Regex.replaceAll (S (S (String.length src)))
            (Regex.BeginText :: q) src repl 0 0)
    with (match Regex.doExecute (Regex.BeginText :: q) src 0 with
          | None => Some (drop_bytes 0 src)
          | Some (a0, a1) =>
            let width := snd (Utf8.DecodeRuneInString (drop_bytes 0 src)) in
            let searchPos' :=
              if (a1 <? 0 + width)%nat then (0 + width)%nat
              else if (a1 <? 0 + 1)%nat then (0 + 1)%nat else a1 in
            (λ rest,
               Regex.slice src 0 a0
               +:+ (if (0 <? a1)%nat || (a0 =? 0)%nat
                    then Regex.expand (Regex.slice src a0 a1) 0 repl
                    else EmptyString)
               +:+ rest)
              <$> Regex.replaceAll (S (String.length src))
                    (Regex.BeginText :: q) src repl a1 searchPos'
          end).
  rewrite doExecute_anchored_0.
  destruct (Regex.match_here q 0 src) as [w|]; [|reflexivity].
  cbv zeta. cbn [fmap option_fmap option_map].
  rewrite replaceAll_anchored_late
    by (repeat case_match; rewrite ?Nat.ltb_lt, ?Nat.ltb_ge in *; lia).
  rewrite orb_true_r. unfold Regex.slice. simpl drop_bytes.
  replace (w - 0)%nat with w by lia. reflexivity.
Qed.

(** ** The built-in rules *)

Lemma defaultRules_cases k v :
  defaultRules !! k = Some v →
  (k, v) ∈ [("^gcr.io", EmptyString); ("^docker.io", "docker");
            ("^k8s.gcr.io", "google-containers");
            ("^registry.k8s.io", "google-containers");
            ("^quay.io", "quay"); ("^ghcr.io", "ghcr")].
Proof.
  intros Hk%elem_of_map_to_list.
  replace (map_to_list defaultRules)
    with [("^gcr.io", EmptyString); ("^ghcr.io", "ghcr");
          ("^k8s.gcr.io", "google-containers"); ("^quay.io", "quay");
          ("^registry.k8s.io", "google-containers"); ("^docker.io", "docker")]
    in Hk by (vm_compute; reflexivity).
  rewrite !elem_of_cons, elem_of_nil in *. tauto.
Qed.

(** One of the finitely many cases of a membership in a list of pairs. *)
Ltac list_cases H :=
  repeat (apply elem_of_cons in H as [H|H]);
  [..|now apply elem_of_nil in H].

(** A built-in rule on a string whose first bytes are known. *)
Ltac builtin_rule :=
  eexists; split; [vm_compute; reflexivity|];
  change (@ReplaceAllString AsciiRuntime) with Regex.ReplaceAllString;
  rewrite ReplaceAllString_anchored; vm_compute; reflexivity.

Lemma builtin_hosts host repl rest k' v' :
  defaultRules !! ("^" +:+ host) = Some repl →
  k' ≠ "^" +:+ host → defaultRules !! k' = Some v' →
  inert (rt:=AsciiRuntime) (k', v') (host +:+ "/" +:+ rest)
  ∧ inert (rt:=AsciiRuntime) (k', v') (repl +:+ "/" +:+ rest).
Proof.
  intros Hk%defaultRules_cases Hne Hk'%defaultRules_cases.
  change ("^" +:+ host) with (String "^" host) in *.
  list_cases Hk; simplify_eq;
    (list_cases Hk'; simplify_eq); split; builtin_rule.
Qed.

Lemma builtin_host_effect host repl rest :
  defaultRules !! ("^" +:+ host) = Some repl →
  ∃ re, Compile (GoRuntime:=AsciiRuntime) ("^" +:+ host) = Some re
        ∧ ReplaceAllString re (host +:+ "/" +:+ rest) repl
          = repl +:+ "/" +:+ rest
        ∧ EqualFold (repl +:+ "/" +:+ rest) (host +:+ "/" +:+ rest) = false.
Proof.
  intros Hk%defaultRules_cases.
  change ("^" +:+ host) with (String "^" host) in *.
  list_cases Hk; simplify_eq;
    (eexists; split; [vm_compute; reflexivity|]; split;
     [change (@ReplaceAllString AsciiRuntime) with Regex.ReplaceAllString;
      rewrite ReplaceAllString_anchored; vm_compute; reflexivity
     |vm_compute; reflexivity]).
Qed.

Lemma defaultRules_applyRules order host repl rest :
  defaultRules !! ("^" +:+ host) = Some repl →
  ranges defaultRules order →
  applyRules (rt:=AsciiRuntime) order (host +:+ "/" +:+ rest) []
  = Return (repl +:+ "/" +:+ rest, order.*1)
  ∧ EqualFold (GoRuntime:=AsciiRuntime)
      (repl +:+ "/" +:+ rest) (host +:+ "/" +:+ rest) = false.
Proof.
  intros Hk Hr.
  destruct (ranges_split defaultRules order _ _ Hr Hk) as (l1 & l2 & -> & Hrest).
  destruct (builtin_host_effect host repl rest Hk) as (re & Hre & Heff & Hfold).
  split; [|exact Hfold].
  rewrite (applyRules_single l1 _ repl l2 re); [| | exact Hre |].
  - now rewrite Heff.
  - apply Forall_forall. intros [k' v'] Hin.
    destruct (Hrest k' v') as [Hne Hl]; [apply elem_of_app; now left|].
    now apply (builtin_hosts host repl rest k' v').
  - apply Forall_forall. intros [k' v'] Hin. rewrite Heff.
    destruct (Hrest k' v') as [Hne Hl]; [apply elem_of_app; now right|].
    now apply (builtin_hosts host repl rest k' v').
Qed.

(** X2: under the built-in rules, a source [HOST/REST] without ['@'],
    [HOST] one of the six registries the rules name, is rewritten to the
    replacement of that registry followed by [/REST], flattened and
    prefixed -- the same target in every order the map can be ranged
    over. *)
Theorem builtin_rules_any_order order config issues host repl rest :
  defaultRules !! ("^" +:+ host) = Some repl →
  originOf issues = host +:+ "/" +:+ rest →
  Strings.ContainsAny (originOf issues) "@" = false →
  ranges defaultRules order →
  rewrite (rt:=AsciiRuntime) order config issues
  = Return (Rewritten (originOf issues)
              (withPrefixes config (flatten (repl +:+ "/" +:+ rest)))).
Proof.
  intros Hk Ho Hat Hr.
  destruct (defaultRules_applyRules order host repl rest Hk Hr)
    as [Hloop Hfold].
  unfold rewrite. rewrite Hat, Ho, Hloop, Hfold. reflexivity.
Qed.

Lemma single_effective_rule_any_order_witness :
  rewrite (rt:=AsciiRuntime) (reverse (map_to_list defaultRules))
          (flagsConfig EmptyString "mirror" defaultRules)
          (issueOf "[PORTER] quay.io/coreos/etcd:v3.5.0")
  = Return (Rewritten "quay.io/coreos/etcd:v3.5.0"
                      "mirror/quay.coreos.etcd:v3.5.0").
Proof.
  destruct (builtin_host_effect "quay.io" "quay" "coreos/etcd:v3.5.0")
    as (re & Hre & Heff & Hfold); [vm_compute; reflexivity|].
  change (originOf (issueOf "[PORTER] quay.io/coreos/etcd:v3.5.0"))
    with ("quay.io" +:+ "/" +:+ "coreos/etcd:v3.5.0") in *.
  refine (eq_trans
    (single_effective_rule_any_order (rt:=AsciiRuntime) defaultRules
       (reverse (map_to_list defaultRules))
       (flagsConfig EmptyString "mirror" defaultRules)
       (issueOf "[PORTER] quay.io/coreos/etcd:v3.5.0")
       "^quay.io" "quay" re _ Hre _ _ _ _) _).
  - vm_compute. reflexivity.
  - intros k' v' Hne Hk'.
    change (originOf (issueOf "[PORTER] quay.io/coreos/etcd:v3.5.0"))
      with ("quay.io" +:+ "/" +:+ "coreos/etcd:v3.5.0").
    rewrite Heff.
    apply (builtin_hosts "quay.io" "quay" "coreos/etcd:v3.5.0");
      [vm_compute; reflexivity | exact Hne | exact Hk'].
  - change (originOf (issueOf "[PORTER] quay.io/coreos/etcd:v3.5.0"))
      with ("quay.io" +:+ "/" +:+ "coreos/etcd:v3.5.0").
    rewrite Heff. exact Hfold.
  - vm_compute. reflexivity.
  - unfold ranges. apply reverse_Permutation.
  - change (originOf (issueOf "[PORTER] quay.io/coreos/etcd:v3.5.0"))
      with ("quay.io" +:+ "/" +:+ "coreos/etcd:v3.5.0").
    rewrite Heff. vm_compute. reflexivity.
Defined.

Lemma builtin_rules_any_order_witness :
  rewrite (rt:=AsciiRuntime) (reverse (map_to_list defaultRules))
          (flagsConfig EmptyString "mirror" defaultRules)
          (issueOf "[PORTER] registry.k8s.io/pause:3.9")
  = Return (Rewritten "registry.k8s.io/pause:3.9"
                      "mirror/google-containers.pause:3.9").
Proof.
  apply (builtin_rules_any_order (reverse (map_to_list defaultRules))
           (flagsConfig EmptyString "mirror" defaultRules)
           (issueOf "[PORTER] registry.k8s.io/pause:3.9")
           "registry.k8s.io" "google-containers" "pause:3.9").
  - vm_compute. reflexivity.
  - vm_compute. reflexivity.
  - vm_compute. reflexivity.
  - unfold ranges. apply reverse_Permutation.
Defined.

Lemma inert_rules_are_NoMatch_witness :
  rewrite (rt:=AsciiRuntime) (map_to_list defaultRules)
          (flagsConfig EmptyString "mirror" defaultRules)
          (issueOf "[PORTER] example.com/foo:v1")
  = Return (NoMatch
              ("@requester 暂不支持同步example.com/foo:v1,目前仅支持同步 `"
                 +:+ Strings.Join (map_to_list defaultRules).*1 " ,"
                 +:+ "`镜像")
              "example.com/foo:v1" "example.com/foo:v1").
Proof.
  apply (inert_rules_are_NoMatch (rt:=AsciiRuntime) defaultRules
           (map_to_list defaultRules)
           (flagsConfig EmptyString "mirror" defaultRules)
           (issueOf "[PORTER] example.com/foo:v1")).
  - intros k v Hk%defaultRules_cases.
    change (originOf (issueOf "[PORTER] example.com/foo:v1"))
      with "example.com/foo:v1".
    list_cases Hk; simplify_eq; builtin_rule.
  - vm_compute. reflexivity.
  - unfold ranges. reflexivity.
Defined.

Lemma invalid_key_panics_any_order_witness :
  ∃ k', is_Some (({[ "*.gcr.io" := "mirror" ]} : gmap string string) !! k')
        ∧ Compile (GoRuntime:=AsciiRuntime) k' = None
        ∧ rewrite (rt:=AsciiRuntime)
                  (map_to_list ({[ "*.gcr.io" := "mirror" ]}
                                : gmap string string))
                  (flagsConfig EmptyString "mirror"
                               {[ "*.gcr.io" := "mirror" ]})
                  (issueOf "[PORTER] gcr.io/pause:3.2")
          = Panic ("regexp: Compile(" +:+ k' +:+ ")").
Proof.
  apply (invalid_key_panics_any_order (rt:=AsciiRuntime)
           {[ "*.gcr.io" := "mirror" ]} _ _ _ "*.gcr.io" "mirror").
  - vm_compute. reflexivity.
  - vm_compute. reflexivity.
  - vm_compute. reflexivity.
  - unfold ranges. reflexivity.
Defined.

Lemma NoMatch_lists_the_keys_witness :
  "example.com/foo:v1" = originOf (issueOf "[PORTER] example.com/foo:v1")
  ∧ "@requester 暂不支持同步example.com/foo:v1,目前仅支持同步 `^gcr.io ,^ghcr.io ,^k8s.gcr.io ,^quay.io ,^registry.k8s.io ,^docker.io`镜像"
    = "@" +:+ Login (issueOf "[PORTER] example.com/foo:v1")
          +:+ " 暂不支持同步" +:+ "example.com/foo:v1"
          +:+ ",目前仅支持同步 `"
          +:+ Strings.Join (map_to_list defaultRules).*1 " ,"
          +:+ "`镜像"
  ∧ NoDup (map_to_list defaultRules).*1
  ∧ ∀ k, k ∈ (map_to_list defaultRules).*1 ↔ is_Some (defaultRules !! k).
Proof.
  apply (NoMatch_lists_the_keys (rt:=AsciiRuntime) defaultRules
           (map_to_list defaultRules)
           (flagsConfig EmptyString "mirror" defaultRules)
           (issueOf "[PORTER] example.com/foo:v1") _ _ "example.com/foo:v1").
  - vm_compute. reflexivity.
  - unfold ranges. reflexivity.
Defined.

(** ** The Docker Engine calls of [mirrorByIssues] *)

Section DockerCalls.
Context {rt : GoRuntime}.

(** X6: [mirrorByIssues] returns no error exactly when the title is
    Rewritten and the login, the pull, the tag and the push all succeed;
    the names it returns are then those of the rewriting. *)
Theorem mirrorByIssues_succeeds_iff (d : Docker) order issues config o t :
  mirrorByIssues d order issues config = Return (None, o, t)
  ↔ rewrite order config issues = Return (Rewritten o t)
    ∧ dockerLogin d config = None ∧ dockerPull d o = None
    ∧ dockerTag d o t = None ∧ dockerPush d t config = None.
Proof.
  unfold mirrorByIssues.
  destruct (rewrite order config issues) as [[e o' t'|e o' t'|o' t']|msg].
  1, 2, 4: split; [discriminate | intros [[=] _]].
  split.
  - intros Hrun.
    destruct (dockerLogin d config); [discriminate|].
    destruct (dockerPull d o') eqn:Hpull; [discriminate|].
    destruct (dockerTag d o' t') eqn:Htag; [discriminate|].
    destruct (dockerPush d t' config) eqn:Hpush; [discriminate|].
    injection Hrun as <- <-. auto.
  - intros ([= <- <-] & -> & -> & -> & ->). reflexivity.
Qed.
End DockerCalls.

(** ** The origin image name: [strings.TrimSpace] *)

Lemma rev_bytes_involutive s : rev_bytes EmptyString (rev_bytes EmptyString s) = s.
Proof.
  induction s as [|c s IH]; [reflexivity|].
  change (rev_bytes EmptyString (String c s)) with (rev_bytes (String c EmptyString) s).
  rewrite (rev_bytes_acc (String c EmptyString) s), rev_bytes_app, IH.
  reflexivity.
Qed.

Lemma take_drop_bytes n s : take_bytes n s +:+ drop_bytes n s = s.
Proof.
  revert s; induction n as [|n IH]; intros [|c s]; simpl; try reflexivity.
  now rewrite ?app_cons_s, IH.
Qed.

Lemma take_bytes_length_app a b : take_bytes (String.length a) (a +:+ b) = a.
Proof.
  induction a as [|c a IH]; [now destruct b|].
  rewrite app_cons_s. simpl. now rewrite IH.
Qed.

Lemma trim_left_head k s :
  Strings.trim_left k s = EmptyString
  ∨ Unicode.IsSpace (Utf8.DecodeRuneInString (Strings.trim_left k s)).1 = false.
Proof.
  revert k; induction s as [|c r IH]; intros k; [now left|].
  destruct k as [|k]; cbn [Strings.trim_left]; [|apply IH].
  destruct (Utf8.DecodeRuneInString (String c r)) as [rn w] eqn:Hd.
  destruct (Unicode.IsSpace rn) eqn:Hsp; [apply IH|].
  right. now rewrite Hd.
Qed.

Lemma trim_left_suffix k s :
  ∃ l, s = l +:+ Strings.trim_left k s.
Proof.
  revert k; induction s as [|c r IH]; intros k; [now exists EmptyString|].
  destruct k as [|k]; cbn [Strings.trim_left].
  - destruct (Utf8.DecodeRuneInString (String c r)) as [rn w].
    destruct (Unicode.IsSpace rn); [|now exists EmptyString].
    destruct (IH (Nat.pred w)) as [l Hl]. exists (String c l).
    now rewrite app_cons_s, <- Hl.
  - destruct (IH k) as [l Hl]. exists (String c l).
    now rewrite app_cons_s, <- Hl.
Qed.

(** Decode facts *)
Lemma first_lead b x : Utf8.first b = Some x → 194 <= b.
Proof.
  unfold Utf8.first. destruct (b <? 194) eqn:Hb; [discriminate|].
  intros _. now apply N.ltb_ge in Hb.
Qed.

Lemma first_hi b sz lo hi : Utf8.first b = Some (sz, (lo, hi)) → hi <= 191.
Proof.
  unfold Utf8.first. repeat case_match; intros ?; simplify_eq; lia.
Qed.

Lemma decode_lead c r rn w :
  Utf8.DecodeRuneInString (String c r) = (rn, w) → (2 <= w)%nat →
  194 <= code c.
Proof.
  unfold Utf8.DecodeRuneInString, Utf8.RuneSelf.
  destruct (code c <? 128); [intros [= <- <-]; lia|].
  destruct (Utf8.first (code c)) as [[sz [lo hi]]|] eqn:Hf;
    [|intros [= <- <-]; lia].
  intros _ _. eapply first_lead, Hf.
Qed.

Lemma decode_narrow_high c r rn :
  128 <= code c →
  Utf8.DecodeRuneInString (String c r) = (rn, 1%nat) →
  rn = Utf8.RuneError.
Proof.
  intros Hc. unfold Utf8.DecodeRuneInString, Utf8.RuneSelf.
  apply N.ltb_ge in Hc. rewrite Hc.
  repeat case_match; intros [= <-]; try reflexivity; lia.
Qed.

Lemma decode_app a b rn w :
  Utf8.DecodeRuneInString a = (rn, w) → (2 <= w)%nat →
  Utf8.DecodeRuneInString (a +:+ b) = (rn, w).
Proof.
  unfold Utf8.DecodeRuneInString.
  destruct a as [|c0 [|c1 [|c2 [|c3 r]]]]; rewrite ?app_cons_s, ?app_nil_l_s;
    repeat case_match; intros; simplify_eq; try lia; reflexivity.
Qed.

Lemma decode_high_alone x fw :
  128 <= code x → starts_rune fw →
  (Utf8.DecodeRuneInString (String x fw)).2 = 1%nat.
Proof.
  intros Hx Hfw. unfold Utf8.DecodeRuneInString, Utf8.RuneSelf.
  apply N.ltb_ge in Hx. rewrite Hx.
  destruct (Utf8.first (code x)) as [[sz [lo hi]]|] eqn:Hf; [|reflexivity].
  destruct fw as [|b fw]; [reflexivity|]. simpl in Hfw.
  pose proof (first_lo _ _ _ _ Hf). pose proof (first_hi _ _ _ _ Hf).
  replace ((code b <? lo) || (hi <? code b)) with true; [reflexivity|].
  symmetry. unfold Utf8.continuation in Hfw.
  apply andb_false_iff in Hfw as [Hb|Hb].
  - apply N.leb_gt in Hb. apply orb_true_iff. left. apply N.ltb_lt. lia.
  - apply N.leb_gt in Hb. apply orb_true_iff. right. apply N.ltb_lt. lia.
Qed.

Lemma last_index_skip k rs :
  Strings.last_index k rs = Strings.last_index 0 (drop_bytes k rs).
Proof.
  revert k; induction rs as [|c r IH]; intros [|k]; try reflexivity.
  cbn [Strings.last_index drop_bytes]. apply IH.
Qed.

Lemma decode_last_cases x before rn w :
  Utf8.DecodeLastRune (String x before) = (rn, w) →
  (w = 1%nat ∧ ((code x < 128 ∧ rn = code x)
                ∨ (128 <= code x ∧ rn = Utf8.RuneError)))
  ∨ ((2 <= w <= S (String.length before))%nat
     ∧ Utf8.DecodeRuneInString
         (rev_bytes EmptyString (take_bytes w (String x before))) = (rn, w)).
Proof.
  unfold Utf8.DecodeLastRune, Utf8.RuneSelf.
  destruct (code x <? 128) eqn:Hx.
  { intros [= <- <-]. left. apply N.ltb_lt in Hx. auto. }
  apply N.ltb_ge in Hx.
  generalize (Utf8.scan_back (Utf8.UTFMax - 1) before 0). intros back.
  destruct (Utf8.DecodeRuneInString
              (rev_bytes EmptyString (take_bytes (S back) (String x before))))
    as [r size] eqn:Hd.
  destruct (size =? S back)%nat eqn:Hsize; [|intros [= <- <-]; left; auto].
  apply Nat.eqb_eq in Hsize. subst size. intros [= <- <-].
  destruct back as [|back].
  - left. split; [reflexivity|]. right. split; [exact Hx|].
    change (rev_bytes EmptyString (take_bytes 1 (String x before)))
      with (String x EmptyString) in Hd.
    now apply decode_narrow_high in Hd.
  - right. split; [|exact Hd].
    apply decode_spec in Hd as (Hlen & _).
    rewrite length_rev_bytes, length_take_bytes in Hlen.
    cbn [String.length] in Hlen. lia.
Qed.

Lemma rev_take_drop w rs :
  rev_bytes EmptyString rs
  = rev_bytes EmptyString (drop_bytes w rs)
    +:+ rev_bytes EmptyString (take_bytes w rs).
Proof.
  rewrite <- rev_bytes_app. now rewrite take_drop_bytes.
Qed.

Lemma length_drop_bytes n s :
  String.length (drop_bytes n s) = (String.length s - n)%nat.
Proof.
  revert s; induction n as [|n IH]; intros [|c s]; simpl; try lia.
  apply IH.
Qed.

Lemma TrimRightSpace_cut s :
  Strings.TrimRightSpace s
  = match Strings.last_index 0 (rev_bytes EmptyString s) with
    | None => EmptyString
    | Some i => cut_after s i
    end.
Proof. reflexivity. Qed.

Lemma last_index_unfold x before :
  Strings.last_index 0 (String x before)
  = let '(rn, w) := Utf8.DecodeLastRune (String x before) in
    if Unicode.IsSpace rn
    then Strings.last_index 0 (drop_bytes w (String x before))
    else Some (String.length (String x before) - w)%nat.
Proof.
  cbn [Strings.last_index].
  destruct (Utf8.DecodeLastRune (String x before)) as [rn w] eqn:Hd.
  destruct (Unicode.IsSpace rn); [|reflexivity].
  rewrite last_index_skip.
  apply decode_last_spec in Hd as [Hw _].
  destruct w; [lia | reflexivity].
Qed.

Lemma starts_rune_rev_take rs rn w fw :
  Utf8.DecodeLastRune rs = (rn, w) → rs ≠ EmptyString →
  Unicode.IsSpace rn = true →
  starts_rune (rev_bytes EmptyString (take_bytes w rs) +:+ fw).
Proof.
  destruct rs as [|x before]; [congruence|]. intros Hd _ Hsp.
  apply decode_last_cases in Hd as [[-> [[Hx ->]|[Hx ->]]]|[Hw Hd]].
  - change (take_bytes 1 (String x before)) with (String x EmptyString).
    simpl. unfold Utf8.continuation.
    apply andb_false_iff. left. apply N.leb_gt. lia.
  - discriminate Hsp.
  - destruct (rev_bytes EmptyString (take_bytes w (String x before)))
      as [|c r] eqn:Hc.
    + simpl in Hd. injection Hd as _ <-. lia.
    + rewrite app_cons_s. simpl.
      apply decode_lead in Hd; [|lia].
      unfold Utf8.continuation. apply andb_false_iff. right.
      apply N.leb_gt. lia.
Qed.

Lemma cut_after_last_rune n rs fw i :
  (String.length rs <= n)%nat → starts_rune fw →
  Strings.last_index 0 rs = Some i →
  ∃ rs2 fw2,
    rev_bytes EmptyString rs +:+ fw = rev_bytes EmptyString rs2 +:+ fw2
    ∧ cut_after (rev_bytes EmptyString rs +:+ fw) i = rev_bytes EmptyString rs2
    ∧ rs2 ≠ EmptyString
    ∧ Unicode.IsSpace (Utf8.DecodeLastRune rs2).1 = false.
Proof.
  revert rs fw; induction n as [|n IH]; intros rs fw Hn Hfw Hi.
  { destruct rs; [discriminate | simpl in Hn; lia]. }
  destruct rs as [|x before]; [discriminate|].
  rewrite last_index_unfold in Hi.
  destruct (Utf8.DecodeLastRune (String x before)) as [rn w] eqn:Hd.
  pose proof (decode_last_spec _ _ _ _ Hd) as [Hw [Hwlen _]].
  destruct (Unicode.IsSpace rn) eqn:Hsp.
  - (* a white-space rune: go on in front of it *)
    destruct (IH (drop_bytes w (String x before))
                 (rev_bytes EmptyString (take_bytes w (String x before)) +:+ fw))
      as (rs2 & fw2 & Heq & Hcut & Hne & Hlast).
    + rewrite length_drop_bytes. simpl in *. lia.
    + now apply (starts_rune_rev_take _ rn).
    + exact Hi.
    + exists rs2, fw2.
      rewrite (rev_take_drop w (String x before)), app_assoc_s.
      auto.
  - (* the last rune that is no white space *)
    set (rs := String x before) in *.
    assert (Hi' : i = (String.length rs - w)%nat) by congruence.
    clear Hi. subst i. exists rs, fw.
    split; [reflexivity|]. split; [|split; [discriminate | now rewrite Hd]].
    assert (HL : (w <= String.length rs)%nat) by (simpl; lia).
    unfold cut_after.
    assert (Hrest : drop_bytes (String.length rs - w)
                      (rev_bytes EmptyString rs +:+ fw)
                    = rev_bytes EmptyString (take_bytes w rs) +:+ fw).
    { rewrite (rev_take_drop w rs) at 1. rewrite app_assoc_s.
      replace (String.length rs - w)%nat
        with (String.length (rev_bytes EmptyString (drop_bytes w rs)))
        by (rewrite length_rev_bytes, length_drop_bytes; simpl; lia).
      apply drop_bytes_app. }
    assert (Hall : ∀ k, k = String.length rs →
              take_bytes k (rev_bytes EmptyString rs +:+ fw)
              = rev_bytes EmptyString rs).
    { intros k ->.
      replace (String.length rs)
        with (String.length (rev_bytes EmptyString rs))
        by (rewrite length_rev_bytes; simpl; lia).
      apply take_bytes_length_app. }
    rewrite Hrest.
    apply decode_last_cases in Hd as [[-> [[Hx ->]|[Hx ->]]]|[Hw2 Hd]].
    + change (take_bytes 1 rs) with (String x EmptyString).
      simpl rev_bytes. rewrite app_cons_s.
      replace (Utf8.RuneSelf <=? code x) with false
        by (symmetry; apply N.leb_gt; exact Hx).
      apply Hall. lia.
    + change (take_bytes 1 rs) with (String x EmptyString).
      simpl rev_bytes. rewrite app_cons_s, app_nil_l_s.
      replace (Utf8.RuneSelf <=? code x) with true
        by (symmetry; apply N.leb_le; exact Hx).
      rewrite decode_high_alone by assumption.
      apply Hall. lia.
    + fold rs in Hd. rewrite (decode_app _ fw _ _ Hd) by lia.
      destruct (rev_bytes EmptyString (take_bytes w rs)) as [|c r] eqn:Hc.
      { simpl in Hd. injection Hd as _ <-. lia. }
      rewrite app_cons_s.
      apply decode_lead in Hd; [|lia].
      replace (Utf8.RuneSelf <=? code c) with true
        by (symmetry; apply N.leb_le; unfold Utf8.RuneSelf; lia).
      apply Hall. simpl. lia.
Qed.

Lemma TrimRightSpace_spec t :
  Strings.TrimRightSpace t = EmptyString
  ∨ (Unicode.IsSpace
       (Utf8.DecodeLastRune
          (rev_bytes EmptyString (Strings.TrimRightSpace t))).1 = false
     ∧ Strings.TrimRightSpace t ≠ EmptyString
     ∧ ∃ fw, t = Strings.TrimRightSpace t +:+ fw).
Proof.
  rewrite TrimRightSpace_cut.
  destruct (Strings.last_index 0 (rev_bytes EmptyString t)) as [i|] eqn:Hi;
    [right | now left].
  destruct (cut_after_last_rune _ (rev_bytes EmptyString t) EmptyString i
              (Nat.le_refl _) I Hi)
    as (rs2 & fw2 & Heq & Hcut & Hne & Hlast).
  rewrite rev_bytes_involutive, app_nil_r_s in Heq, Hcut.
  rewrite Hcut, rev_bytes_involutive.
  split; [exact Hlast | split; [|now exists fw2]].
  intros Hnil. apply (f_equal String.length) in Hnil.
  rewrite length_rev_bytes in Hnil. destruct rs2; [congruence | simpl in Hnil; lia].
Qed.

Lemma decode_prefix p fw :
  p ≠ EmptyString →
  (Utf8.DecodeRuneInString p).1 = (Utf8.DecodeRuneInString (p +:+ fw)).1
  ∨ (Utf8.DecodeRuneInString p).1 = Utf8.RuneError.
Proof.
  destruct p as [|c r]; [congruence|]. intros _.
  destruct (Utf8.DecodeRuneInString (String c r)) as [rn w] eqn:Hd.
  pose proof (decode_spec _ _ _ Hd) as (_ & Hpos & _).
  specialize (Hpos ltac:(discriminate)).
  destruct (Nat.eq_dec w 1%nat) as [->|Hw].
  - destruct (N.lt_ge_cases (code c) 128) as [Hc|Hc].
    + left. rewrite app_cons_s, decode_narrow by exact Hc.
      rewrite decode_narrow in Hd by exact Hc. now injection Hd as <-.
    + right. simpl. now apply (decode_narrow_high c r).
  - left. now rewrite (decode_app _ fw _ _ Hd) by lia.
Qed.

(** X7: the origin image name is a contiguous piece of the title from
    which the first ["[PORTER]"] was removed, and no white space (in the
    sense of [unicode.IsSpace]) is at either of its ends: it is empty, or
    its first rune and its last rune are no white space. *)
Theorem origin_is_trimmed issues :
  (∃ l r, Strings.Replace (Title issues) "[PORTER]" EmptyString 1
          = l +:+ originOf issues +:+ r)
  ∧ (originOf issues = EmptyString
     ∨ (Unicode.IsSpace (Utf8.DecodeRuneInString (originOf issues)).1 = false
        ∧ Unicode.IsSpace
            (Utf8.DecodeLastRune
               (rev_bytes EmptyString (originOf issues))).1 = false)).
Proof.
  unfold originOf.
  set (s := Strings.Replace (Title issues) "[PORTER]" EmptyString 1).
  unfold Strings.TrimSpace, Strings.TrimLeftSpace.
  destruct (trim_left_suffix 0 s) as [l Hl].
  set (t := Strings.trim_left 0 s) in *.
  destruct (TrimRightSpace_spec t) as [Hnil | (Hlast & Hne & fw & Hfw)].
  - rewrite Hnil. split; [|now left].
    exists l, t. now rewrite app_nil_l_s.
  - split; [exists l, fw; now rewrite <- Hfw|].
    right. split; [|exact Hlast].
    destruct (trim_left_head 0 s) as [Ht | Ht]; fold t in Ht.
    + rewrite Ht in Hne. now destruct Hne.
    + destruct (decode_prefix (Strings.TrimRightSpace t) fw Hne) as [-> | ->].
      * now rewrite <- Hfw.
      * reflexivity.
Qed.

(** ** White space: what [strings.TrimSpace] cuts and what it leaves *)

Ltac white_cases H :=
  unfold White_Space in H;
  repeat (apply elem_of_cons in H as [H|H]); [..|now apply elem_of_nil in H];
  subst.

Lemma IsSpace_White_Space r : Unicode.IsSpace r = true ↔ r ∈ White_Space.
Proof.
  split.
  - unfold Unicode.IsSpace. intros H.
    assert (Hr : r = 9 ∨ r = 10 ∨ r = 11 ∨ r = 12 ∨ r = 13 ∨ r = 32
                 ∨ r = 133 ∨ r = 160 ∨ r = 5760 ∨ (8192 <= r <= 8202)
                 ∨ r = 8232 ∨ r = 8233 ∨ r = 8239 ∨ r = 8287 ∨ r = 12288).
    { destruct (r <=? 255);
        repeat (apply orb_true_iff in H as [H|H]);
        try (apply N.eqb_eq in H); try lia.
      apply andb_true_iff in H as [H1%N.leb_le H2%N.leb_le]. lia. }
    unfold White_Space. rewrite !elem_of_cons, elem_of_nil. lia.
  - intros H. white_cases H; reflexivity.
Qed.

Lemma decode_white r rest :
  r ∈ White_Space →
  Utf8.DecodeRuneInString (Utf8.EncodeRune r +:+ rest)
  = (r, String.length (Utf8.EncodeRune r)).
Proof. intros H. white_cases H; vm_compute; reflexivity. Qed.

Lemma decode_last_white r before :
  r ∈ White_Space →
  Utf8.DecodeLastRune (rev_bytes EmptyString (Utf8.EncodeRune r) +:+ before)
  = (r, String.length (Utf8.EncodeRune r)).
Proof. intros H. white_cases H; vm_compute; reflexivity. Qed.

Lemma EncodeRune_nonempty r x : Utf8.EncodeRune r +:+ x ≠ EmptyString.
Proof.
  unfold Utf8.EncodeRune.
  repeat match goal with |- context [if ?b then _ else _] => destruct b end;
    discriminate.
Qed.

Lemma land_shiftl_low a n b : b < 2 ^ n → N.land (N.shiftl a n) b = 0.
Proof.
  intros Hb. apply N.bits_inj. intros i.
  rewrite N.land_spec, N.bits_0.
  destruct (N.lt_ge_cases i n) as [Hi|Hi].
  - now rewrite N.shiftl_spec_low.
  - destruct (N.eq_dec b 0) as [->|Hb0].
    + now rewrite N.bits_0, andb_false_r.
    + rewrite (N.bits_above_log2 b i), andb_false_r; [reflexivity|].
      apply N.lt_le_trans with n; [|exact Hi].
      apply N.log2_lt_pow2; lia.
Qed.

Lemma lor_shiftl_add a n b :
  b < 2 ^ n → N.lor (N.shiftl a n) b = a * 2 ^ n + b.
Proof.
  intros Hb. rewrite <- N.lxor_lor, <- N.add_nocarry_lxor, N.shiftl_mul_pow2
    by now apply land_shiftl_low.
  reflexivity.
Qed.


(** Linear facts for [x mod k], [k] a numeral. *)
Ltac mod_facts :=
  repeat match goal with
  | H : context [?x mod ?k] |- _ =>
    let q := fresh "q" in let m := fresh "m" in
    let Hq := fresh "Hq" in let Hm := fresh "Hm" in
    pose proof (N.div_mod x k ltac:(lia)) as Hq;
    pose proof (N.mod_upper_bound x k ltac:(lia)) as Hm;
    set (m := x mod k) in *; set (q := x / k) in *;
    clearbody m q
  end.

Lemma first_cases b sz lo hi :
  Utf8.first b = Some (sz, (lo, hi)) →
  (sz = 2%nat ∧ 194 <= b < 224 ∧ lo = 128 ∧ hi = 191)
  ∨ (sz = 3%nat ∧ 224 <= b < 240 ∧ 128 <= lo ∧ hi <= 191
     ∧ (b = 224 → lo = 160) ∧ (b = 237 → hi = 159))
  ∨ (sz = 4%nat ∧ 240 <= b <= 244 ∧ 128 <= lo ∧ hi <= 191
     ∧ (b = 240 → lo = 144)).
Proof.
  unfold Utf8.first.
  repeat match goal with
  | |- context [if ?x <? ?y then _ else _] =>
    destruct (N.ltb_spec x y)
  | |- context [if ?x =? ?y then _ else _] =>
    destruct (N.eqb_spec x y)
  end; intros [= <- <- <-]; lia.
Qed.

Lemma byte_code c n : code c = n → c = byte n.
Proof. intros <-. unfold byte, code. now rewrite ascii_N_embedding. Qed.


Lemma code_inj a b : code a = code b → a = b.
Proof.
  unfold code. intros H. rewrite <- (ascii_N_embedding a), H.
  apply ascii_N_embedding.
Qed.

(** The byte [c] is the byte [b] of an encoding. *)
Ltac pin c b :=
  let n := eval vm_compute in (code b) in
  assert (c = b) as -> by (apply code_inj; change (code b) with n; lia).

(** After the rune is known: its encoding gives the bytes. *)
Ltac pin_bytes rn :=
  let e := eval vm_compute in (Utf8.EncodeRune rn) in
  lazymatch goal with
  | |- String ?c0 (String ?c1 (String ?c2 _)) = _ ∧ 3%nat = _ =>
    lazymatch e with
    | String ?b0 (String ?b1 (String ?b2 EmptyString)) =>
      pin c0 b0; pin c1 b1; pin c2 b2
    end
  | |- String ?c0 (String ?c1 _) = _ ∧ 2%nat = _ =>
    lazymatch e with
    | String ?b0 (String ?b1 EmptyString) => pin c0 b0; pin c1 b1
    end
  end; split; reflexivity.

(** The white-space rune a decoding gave, and the bytes it came from. *)
Ltac white_rune H :=
  unfold White_Space in H;
  repeat (apply elem_of_cons in H as [H|H]); [..|now apply elem_of_nil in H];
  first [ exfalso; lia
        | rewrite H;
          match goal with |- _ = Utf8.EncodeRune ?r +:+ _ ∧ _ => pin_bytes r end ].

Lemma white_decode s rn w :
  Utf8.DecodeRuneInString s = (rn, w) →
  Unicode.IsSpace rn = true →
  s = Utf8.EncodeRune rn +:+ drop_bytes w s ∧ w = String.length (Utf8.EncodeRune rn).
Proof.
  unfold Utf8.DecodeRuneInString, Utf8.RuneSelf.
  destruct s as [|c0 r0]; [intros [= <- <-]; discriminate|].
  destruct (N.ltb_spec (code c0) 128) as [H0|H0].
  { intros [= <- <-] Hsp%IsSpace_White_Space.
    unfold Utf8.EncodeRune. replace (code c0 <=? 127) with true
      by (symmetry; apply N.leb_le; lia).
    rewrite <- (byte_code c0 (code c0) eq_refl). now split. }
  destruct (Utf8.first (code c0)) as [[sz [lo hi]]|] eqn:Hf;
    [|intros [= <- <-]; discriminate].
  apply first_cases in Hf.
  destruct r0 as [|c1 r1]; [intros [= <- <-]; discriminate|].
  destruct (N.ltb_spec (code c1) lo) as [H1|H1];
    [intros [= <- <-]; discriminate|].
  destruct (N.ltb_spec hi (code c1)) as [H1'|H1'];
    [intros [= <- <-]; discriminate|].
  cbn [orb].
  destruct Hf as [(-> & Hb & -> & ->) | [(-> & Hb & Hlo & Hhi & Hl & Hh)
                                        | (-> & Hb & Hlo & Hhi & Hl)]];
    cbn [Nat.leb].
  - (* two bytes *)
    intros [= <- <-].
    change 31 with (N.ones 5). change 63 with (N.ones 6).
    rewrite !N.land_ones, lor_shiftl_add by (apply N.mod_upper_bound; lia).
    change (2 ^ 5) with 32. change (2 ^ 6) with 64.
    remember (code c0 mod 32 * 64 + code c1 mod 64) as rn eqn:Hrn.
    intros Hsp%IsSpace_White_Space. mod_facts.
    white_rune Hsp.
  - (* three bytes *)
    destruct r1 as [|c2 r2]; [intros [= <- <-]; discriminate|].
    unfold Utf8.continuation.
    destruct (N.leb_spec 128 (code c2)) as [H2|H2];
      [|intros [= <- <-]; discriminate].
    destruct (N.leb_spec (code c2) 191) as [H2'|H2'];
      [|intros [= <- <-]; discriminate].
    cbn [andb negb]. intros [= <- <-].
    change 15 with (N.ones 4). change 63 with (N.ones 6).
    rewrite !N.land_ones.
    rewrite (lor_shiftl_add (code c1 mod 2 ^ 6) 6)
      by (apply N.mod_upper_bound; lia).
    change (2 ^ 4) with 16. change (2 ^ 6) with 64.
    rewrite lor_shiftl_add
      by (pose proof (N.mod_upper_bound (code c1) 64);
          pose proof (N.mod_upper_bound (code c2) 64);
          change (2 ^ 12) with 4096; lia).
    change (2 ^ 12) with 4096.
    remember (code c0 mod 16 * 4096 + (code c1 mod 64 * 64 + code c2 mod 64))
      as rn eqn:Hrn.
    intros Hsp%IsSpace_White_Space. mod_facts.
    white_rune Hsp.
  - (* four bytes: beyond every white space *)
    destruct r1 as [|c2 r2]; [intros [= <- <-]; discriminate|].
    unfold Utf8.continuation.
    destruct (N.leb_spec 128 (code c2)) as [H2|H2];
      [|intros [= <- <-]; discriminate].
    destruct (N.leb_spec (code c2) 191) as [H2'|H2'];
      [|intros [= <- <-]; discriminate].
    cbn [andb negb].
    destruct r2 as [|c3 r3]; [intros [= <- <-]; discriminate|].
    destruct (N.leb_spec 128 (code c3)) as [H3|H3];
      [|intros [= <- <-]; discriminate].
    destruct (N.leb_spec (code c3) 191) as [H3'|H3'];
      [|intros [= <- <-]; discriminate].
    cbn [andb negb]. intros [= <- <-].
    change 7 with (N.ones 3). change 63 with (N.ones 6).
    rewrite !N.land_ones.
    rewrite (lor_shiftl_add (code c2 mod 2 ^ 6) 6)
      by (apply N.mod_upper_bound; lia).
    change (2 ^ 3) with 8. change (2 ^ 6) with 64.
    rewrite (lor_shiftl_add (code c1 mod 64) 12)
      by (pose proof (N.mod_upper_bound (code c2) 64);
          pose proof (N.mod_upper_bound (code c3) 64);
          change (2 ^ 12) with 4096; lia).
    change (2 ^ 12) with 4096.
    rewrite lor_shiftl_add
      by (pose proof (N.mod_upper_bound (code c1) 64);
          pose proof (N.mod_upper_bound (code c2) 64);
          pose proof (N.mod_upper_bound (code c3) 64);
          change (2 ^ 18) with 262144; lia).
    change (2 ^ 18) with 262144.
    remember (code c0 mod 8 * 262144
              + (code c1 mod 64 * 4096 + (code c2 mod 64 * 64 + code c3 mod 64)))
      as rn eqn:Hrn.
    intros Hsp%IsSpace_White_Space. mod_facts.
    white_rune Hsp.
Qed.

Lemma encode_runes_app a b :
  encode_runes (a ++ b) = encode_runes a +:+ encode_runes b.
Proof.
  induction a as [|r a IH]; [reflexivity|].
  cbn [app encode_runes foldr]. fold (encode_runes (a ++ b)).
  fold (encode_runes a). now rewrite IH, app_assoc_s.
Qed.

Lemma starts_rune_white trail :
  Forall (λ r, r ∈ White_Space) trail → starts_rune (encode_runes trail).
Proof.
  intros [|r rest Hr _]; [exact I|].
  cbn [encode_runes foldr]. white_cases Hr; reflexivity.
Qed.

Lemma trim_left_skip k s :
  Strings.trim_left k s = Strings.trim_left 0 (drop_bytes k s).
Proof.
  revert s; induction k as [|k IH]; intros [|c r]; try reflexivity.
  cbn [Strings.trim_left drop_bytes]. apply IH.
Qed.

(** What [TrimLeftFunc] drops is white space. *)
Lemma trim_left_white n s :
  (String.length s <= n)%nat →
  ∃ lead, Forall (λ r, r ∈ White_Space) lead
          ∧ s = encode_runes lead +:+ Strings.trim_left 0 s.
Proof.
  revert s; induction n as [|n IH]; intros s Hn.
  { destruct s; [|simpl in Hn; lia]. now exists []. }
  destruct s as [|c r]; [now exists []|].
  cbn [Strings.trim_left].
  destruct (Utf8.DecodeRuneInString (String c r)) as [rn w] eqn:Hd.
  destruct (Unicode.IsSpace rn) eqn:Hsp; [|now exists []].
  destruct (white_decode _ _ _ Hd Hsp) as [Hs Hw].
  pose proof (decode_spec _ _ _ Hd) as (Hlen & Hpos & _).
  specialize (Hpos ltac:(discriminate)).
  rewrite trim_left_skip.
  assert (Hdrop : drop_bytes (Nat.pred w) r = drop_bytes w (String c r))
    by (destruct w; [lia | reflexivity]).
  rewrite Hdrop.
  destruct (IH (drop_bytes w (String c r))) as (lead & Hlead & Hrest).
  { rewrite length_drop_bytes. simpl in *. lia. }
  exists (rn :: lead). split.
  - constructor; [now apply IsSpace_White_Space | exact Hlead].
  - cbn [encode_runes foldr]. fold (encode_runes lead).
    rewrite app_assoc_s, <- Hrest. exact Hs.
Qed.

Lemma white_decode_last rs rn w :
  Utf8.DecodeLastRune rs = (rn, w) →
  Unicode.IsSpace rn = true →
  take_bytes w rs = rev_bytes EmptyString (Utf8.EncodeRune rn)
  ∧ (1 <= w <= String.length rs)%nat.
Proof.
  destruct rs as [|x before]; [intros [= <- <-]; discriminate|].
  intros Hd Hsp.
  apply decode_last_cases in Hd as [[-> [[Hx ->]|[Hx ->]]]|[Hw Hd]].
  - split; [|simpl; lia].
    change (take_bytes 1 (String x before)) with (String x EmptyString).
    unfold Utf8.EncodeRune. replace (code x <=? 127) with true
      by (symmetry; apply N.leb_le; lia).
    now rewrite <- (byte_code x (code x) eq_refl).
  - discriminate Hsp.
  - split; [|simpl; lia].
    destruct (white_decode _ _ _ Hd Hsp) as [Hs Hlen].
    assert (Hl : String.length
                   (rev_bytes EmptyString (take_bytes w (String x before)))
                 = w).
    { rewrite length_rev_bytes, length_take_bytes. simpl. lia. }
    rewrite Hs, length_app_s, <- Hlen in Hl.
    destruct (drop_bytes w _) eqn:Hdrop in Hl; [|simpl in Hl; lia].
    rewrite Hdrop, app_nil_r_s in Hs.
    rewrite <- Hs. now rewrite rev_bytes_involutive.
Qed.

(** The cut of [TrimRightFunc] behind a last rune that is kept. *)
Lemma cut_after_kept rs fw rn w :
  rs ≠ EmptyString → starts_rune fw →
  Utf8.DecodeLastRune rs = (rn, w) →
  cut_after (rev_bytes EmptyString rs +:+ fw) (String.length rs - w)
  = rev_bytes EmptyString rs.
Proof.
  intros Hne Hfw Hd. destruct rs as [|x before]; [congruence|].
  pose proof (decode_last_spec _ _ _ _ Hd) as [Hw [Hwlen _]].
  set (rs := String x before) in *.
  assert (HL : (w <= String.length rs)%nat) by (simpl; lia).
  unfold cut_after.
  assert (Hrest : drop_bytes (String.length rs - w)
                    (rev_bytes EmptyString rs +:+ fw)
                  = rev_bytes EmptyString (take_bytes w rs) +:+ fw).
  { rewrite (rev_take_drop w rs) at 1. rewrite app_assoc_s.
    replace (String.length rs - w)%nat
      with (String.length (rev_bytes EmptyString (drop_bytes w rs)))
      by (rewrite length_rev_bytes, length_drop_bytes; simpl; lia).
    apply drop_bytes_app. }
  assert (Hall : ∀ k, k = String.length rs →
            take_bytes k (rev_bytes EmptyString rs +:+ fw)
            = rev_bytes EmptyString rs).
  { intros k ->.
    replace (String.length rs)
      with (String.length (rev_bytes EmptyString rs))
      by (rewrite length_rev_bytes; simpl; lia).
    apply take_bytes_length_app. }
  rewrite Hrest.
  apply decode_last_cases in Hd as [[-> [[Hx ->]|[Hx ->]]]|[Hw2 Hd]].
  - change (take_bytes 1 rs) with (String x EmptyString).
    simpl rev_bytes. rewrite app_cons_s.
    replace (Utf8.RuneSelf <=? code x) with false
      by (symmetry; apply N.leb_gt; exact Hx).
    apply Hall. lia.
  - change (take_bytes 1 rs) with (String x EmptyString).
    simpl rev_bytes. rewrite app_cons_s, app_nil_l_s.
    replace (Utf8.RuneSelf <=? code x) with true
      by (symmetry; apply N.leb_le; exact Hx).
    rewrite decode_high_alone by assumption.
    apply Hall. lia.
  - fold rs in Hd. rewrite (decode_app _ fw _ _ Hd) by lia.
    destruct (rev_bytes EmptyString (take_bytes w rs)) as [|c r] eqn:Hc.
    { simpl in Hd. injection Hd as _ <-. lia. }
    rewrite app_cons_s.
    apply decode_lead in Hd; [|lia].
    replace (Utf8.RuneSelf <=? code c) with true
      by (symmetry; apply N.leb_le; unfold Utf8.RuneSelf; lia).
    apply Hall. simpl. lia.
Qed.

(** What the loop of [TrimRightFunc] passes over is white space. *)
Lemma last_index_white n rs :
  (String.length rs <= n)%nat →
  ∃ trail rs2,
    Forall (λ r, r ∈ White_Space) trail
    ∧ rev_bytes EmptyString rs
      = rev_bytes EmptyString rs2 +:+ encode_runes trail
    ∧ ((rs2 = EmptyString ∧ Strings.last_index 0 rs = None)
       ∨ (rs2 ≠ EmptyString
          ∧ Strings.last_index 0 rs
            = Some (String.length rs2 - (Utf8.DecodeLastRune rs2).2)%nat)).
Proof.
  revert rs; induction n as [|n IH]; intros rs Hn.
  { destruct rs; [|simpl in Hn; lia]. exists [], EmptyString. auto. }
  destruct rs as [|x before]; [exists [], EmptyString; auto|].
  rewrite last_index_unfold.
  destruct (Utf8.DecodeLastRune (String x before)) as [rn w] eqn:Hd.
  destruct (Unicode.IsSpace rn) eqn:Hsp.
  - destruct (white_decode_last _ _ _ Hd Hsp) as [Htake Hw].
    destruct (IH (drop_bytes w (String x before)))
      as (trail & rs2 & Htrail & Hrev & Hidx).
    { rewrite length_drop_bytes. simpl in *. lia. }
    exists (trail ++ [rn]), rs2. split; [|split; [|exact Hidx]].
    + apply Forall_app. split; [exact Htrail|].
      constructor; [now apply IsSpace_White_Space | constructor].
    + rewrite (rev_take_drop w), Hrev, Htake, rev_bytes_involutive.
      rewrite encode_runes_app, app_assoc_s. cbn [encode_runes foldr].
      now rewrite app_nil_r_s.
  - exists [], (String x before). split; [constructor|].
    split; [now rewrite app_nil_r_s|]. right.
    split; [discriminate|]. now rewrite Hd.
Qed.

Lemma TrimRightSpace_white t :
  ∃ trail, Forall (λ r, r ∈ White_Space) trail
           ∧ t = Strings.TrimRightSpace t +:+ encode_runes trail.
Proof.
  destruct (last_index_white _ (rev_bytes EmptyString t) (Nat.le_refl _))
    as (trail & rs2 & Htrail & Hrev & Hidx).
  rewrite rev_bytes_involutive in Hrev.
  exists trail. split; [exact Htrail|].
  rewrite TrimRightSpace_cut.
  destruct Hidx as [[-> ->] | [Hne ->]]; [exact Hrev|].
  destruct (Utf8.DecodeLastRune rs2) as [rn w] eqn:Hd. cbn [snd].
  assert (Hcut : cut_after t (String.length rs2 - w)
                 = rev_bytes EmptyString rs2).
  { rewrite Hrev.
    apply (cut_after_kept rs2 _ rn);
      [exact Hne | now apply starts_rune_white | exact Hd]. }
  now rewrite Hcut.
Qed.

Lemma TrimSpace_trimmed s : trimmed s (Strings.TrimSpace s).
Proof.
  unfold Strings.TrimSpace, Strings.TrimLeftSpace.
  destruct (trim_left_white _ s (Nat.le_refl _)) as (lead & Hlead & Hs).
  set (t := Strings.trim_left 0 s) in *.
  destruct (TrimRightSpace_white t) as (trail & Htrail & Ht).
  split.
  - exists lead, trail. split; [exact Hlead | split; [exact Htrail|]].
    now rewrite <- Ht.
  - intros r Hr.
    destruct (TrimRightSpace_spec t) as [Hnil | (Hlast & Hne & fw & Hfw)].
    + rewrite Hnil. split; intros x Hx; symmetry in Hx.
      * now apply EncodeRune_nonempty in Hx.
      * destruct x; [|discriminate].
        rewrite app_nil_l_s in Hx.
        now apply (EncodeRune_nonempty r EmptyString); rewrite app_nil_r_s.
    + split; intros x Hx.
      * pose proof (trim_left_head 0 s) as Hhead. fold t in Hhead.
        destruct Hhead as [Hempty | Hfirst].
        -- rewrite Hempty in Hfw at 1.
           destruct (Strings.TrimRightSpace t); [now apply Hne | discriminate].
        -- rewrite Hfw, Hx, app_assoc_s, decode_white in Hfirst by exact Hr.
           apply IsSpace_White_Space in Hr. simpl in Hfirst. congruence.
      * rewrite Hx, rev_bytes_app, decode_last_white in Hlast by exact Hr.
        apply IsSpace_White_Space in Hr. simpl in Hlast. congruence.
Qed.

(** C10: the origin image name is the title with the first occurrence of
    ["[PORTER]"] taken out -- what stands before and after it joined as it
    is -- and then without its leading and trailing white space: what is
    cut at either end is a sequence of encoded code points of the Unicode
    property White_Space, and what is left neither begins nor ends with
    one.  Any occurrence of the marker the joined text still has is in the
    origin image name.  A title without the marker is only trimmed. *)
Theorem origin_drops_first_PORTER (issues : Issue) :
  (∃ pre post,
      first_occurrence "[PORTER]" (Title issues) pre post
      ∧ trimmed (pre +:+ post) (originOf issues)
      ∧ ∀ a b, pre +:+ post = a +:+ "[PORTER]" +:+ b →
               ∃ a' b', originOf issues = a' +:+ "[PORTER]" +:+ b')
  ∨ ((∀ a b, Title issues ≠ a +:+ "[PORTER]" +:+ b)
     ∧ trimmed (Title issues) (originOf issues)).
Proof.
  unfold originOf.
  change (Strings.Replace (Title issues) "[PORTER]" EmptyString 1)
    with (Strings.replace_old "[PORTER]" EmptyString (Some 1%nat) 0
            (Title issues)).
  destruct (replace_once "[PORTER]" EmptyString (Title issues))
    as [(pre & post & Hfirst & Hrep) | [Hno Hrep]]; [discriminate | |].
  - left. exists pre, post. rewrite Hrep, app_nil_l_s.
    split; [exact Hfirst | split; [apply TrimSpace_trimmed|]].
    intros a b ->. apply TrimSpace_keeps_PORTER.
  - right. split; [exact Hno|]. rewrite Hrep. apply TrimSpace_trimmed.
Qed.

(** A title with the marker twice, a no-break space in front of the
    reference and an ideographic space behind it: the first marker and
    both spaces go, the second marker stays. *)
Lemma origin_drops_first_PORTER_witness :
  originOf paddedIssue = "gcr.io/[PORTER]pause:3.2"
  ∧ trimmed (nbsp +:+ "gcr.io/[PORTER]pause:3.2" +:+ ideographic_space)
            (originOf paddedIssue).
Proof.
  split; [vm_compute; reflexivity|].
  destruct (origin_drops_first_PORTER paddedIssue)
    as [(pre & post & [Heq Hfirst] & Htrim & _) | [Hno _]].
  - specialize (Hfirst EmptyString
                  (nbsp +:+ "gcr.io/[PORTER]pause:3.2" +:+ ideographic_space)
                  eq_refl).
    destruct pre; [|simpl in Hfirst; lia].
    simpl in Heq. rewrite app_nil_l_s in Heq, Htrim.
    now apply (inj (String.append "[PORTER]")) in Heq as <-.
  - now destruct (Hno EmptyString
                    (nbsp +:+ "gcr.io/[PORTER]pause:3.2"
                       +:+ ideographic_space)).
Defined.

Lemma trim_left_pad pad body :
  ascii_spaces pad = true →
  Strings.trim_left 0 (pad +:+ body) = Strings.trim_left 0 body.
Proof.
  induction pad as [|c p IH]; [reflexivity|].
  cbn [ascii_spaces]. intros [[Hc Hsp]%andb_true_iff Hp]%andb_true_iff.
  apply N.ltb_lt in Hc. rewrite app_cons_s. cbn [Strings.trim_left].
  rewrite decode_narrow, Hsp by exact Hc. now apply IH.
Qed.

Lemma trim_left_plain c x :
  plain c → Strings.trim_left 0 (String c x) = String c x.
Proof.
  intros [Hc Hsp]. cbn [Strings.trim_left].
  now rewrite decode_narrow, Hsp by exact Hc.
Qed.

Lemma decode_last_narrow c before :
  code c < 128 → Utf8.DecodeLastRune (String c before) = (code c, 1%nat).
Proof.
  intros Hc. unfold Utf8.DecodeLastRune, Utf8.RuneSelf.
  apply N.ltb_lt in Hc. now rewrite Hc.
Qed.

Lemma last_index_pad p rs :
  ascii_spaces p = true →
  Strings.last_index 0 (p +:+ rs) = Strings.last_index 0 rs.
Proof.
  induction p as [|c p IH]; [reflexivity|].
  cbn [ascii_spaces]. intros [[Hc Hsp]%andb_true_iff Hp]%andb_true_iff.
  apply N.ltb_lt in Hc. rewrite app_cons_s. cbn [Strings.last_index].
  rewrite decode_last_narrow, Hsp by exact Hc. now apply IH.
Qed.

Lemma ascii_spaces_app a b :
  ascii_spaces (a +:+ b) = ascii_spaces a && ascii_spaces b.
Proof.
  induction a as [|c a IH]; [reflexivity|].
  rewrite app_cons_s. cbn [ascii_spaces]. now rewrite IH, andb_assoc.
Qed.

Lemma ascii_spaces_rev s :
  ascii_spaces (rev_bytes EmptyString s) = ascii_spaces s.
Proof.
  induction s as [|c s IH]; [reflexivity|].
  change (rev_bytes EmptyString (String c s))
    with (rev_bytes (String c EmptyString) s).
  rewrite (rev_bytes_acc (String c EmptyString) s), ascii_spaces_app, IH.
  cbn [ascii_spaces]. rewrite andb_true_r. apply andb_comm.
Qed.

Lemma TrimRightSpace_plain y c pad :
  plain c → ascii_spaces pad = true →
  Strings.TrimRightSpace (y +:+ String c pad) = y +:+ String c EmptyString.
Proof.
  intros [Hc Hsp] Hpad. rewrite TrimRightSpace_cut.
  rewrite rev_bytes_app.
  change (rev_bytes EmptyString (String c pad))
    with (rev_bytes (String c EmptyString) pad).
  rewrite (rev_bytes_acc (String c EmptyString) pad), app_assoc_s.
  rewrite last_index_pad by (now rewrite ascii_spaces_rev).
  rewrite app_cons_s, app_nil_l_s. cbn [Strings.last_index].
  rewrite decode_last_narrow, Hsp by exact Hc.
  cbn [String.length]. rewrite length_rev_bytes. cbn [String.length].
  replace (S (String.length y + 0) - 1)%nat with (String.length y) by lia.
  unfold cut_after. rewrite drop_bytes_app.
  replace (Utf8.RuneSelf <=? code c) with false
    by (symmetry; apply N.leb_gt; exact Hc).
  replace (y +:+ String c pad) with ((y +:+ String c EmptyString) +:+ pad)
    by (now rewrite app_assoc_s).
  replace (S (String.length y))
    with (String.length (y +:+ String c EmptyString))
    by (rewrite length_app_s; simpl; lia).
  apply take_bytes_length_app.
Qed.

(** X8: a title that is ["[PORTER]"], ASCII white space, a reference and
    ASCII white space again, the reference beginning and ending with an
    ASCII byte that is no white space, gives that reference as the origin
    image name, whatever bytes it has in between. *)
Theorem usual_title_gives_the_reference issues pad body pad' c1 x y c2 :
  Title issues = "[PORTER]" +:+ pad +:+ body +:+ pad' →
  ascii_spaces pad = true → ascii_spaces pad' = true →
  body = String c1 x → body = y +:+ String c2 EmptyString →
  plain c1 → plain c2 →
  originOf issues = body.
Proof.
  intros Ht Hpad Hpad' Hhead Htail H1 H2. unfold originOf. rewrite Ht.
  change (Strings.Replace ("[PORTER]" +:+ pad +:+ body +:+ pad')
            "[PORTER]" EmptyString 1)
    with (Strings.replace_old "[PORTER]" EmptyString (Some 0%nat) 7
            ("PORTER]" +:+ pad +:+ body +:+ pad')).
  rewrite replace_old_exhausted.
  change (drop_bytes 7 ("PORTER]" +:+ pad +:+ body +:+ pad'))
    with (pad +:+ body +:+ pad').
  unfold Strings.TrimSpace, Strings.TrimLeftSpace.
  rewrite trim_left_pad by exact Hpad.
  rewrite Hhead at 1. rewrite app_cons_s, trim_left_plain by exact H1.
  rewrite <- app_cons_s, <- Hhead, Htail, app_assoc_s, app_cons_s, app_nil_l_s.
  now apply TrimRightSpace_plain.
Qed.

Lemma usual_title_gives_the_reference_witness :
  originOf (issueOf ("[PORTER] gcr.io/pause:3.2" +:+ nl)) = "gcr.io/pause:3.2".
Proof.
  apply (usual_title_gives_the_reference
           (issueOf ("[PORTER] gcr.io/pause:3.2" +:+ nl))
           " " "gcr.io/pause:3.2" nl
           "g" "cr.io/pause:3.2" "gcr.io/pause:3." "2").
  - reflexivity.
  - reflexivity.
  - reflexivity.
  - reflexivity.
  - reflexivity.
  - split; [reflexivity | reflexivity].
  - split; [reflexivity | reflexivity].
Defined.

(** ** The repository of an issue: [strings.Split] *)

Lemma split_sep_nonempty sep skip s : split_sep sep skip s ≠ [].
Proof.
  revert skip; induction s as [|c r IH]; intros skip; [discriminate|].
  destruct skip as [|k]; simpl; [|apply IH].
  destruct (Strings.HasPrefix (String c r) sep); [discriminate|].
  destruct (split_sep sep 0 r); discriminate.
Qed.

Lemma split_slash_app a b :
  split_sep "/" 0 (a +:+ "/" +:+ b) = split_sep "/" 0 a ++ split_sep "/" 0 b.
Proof.
  induction a as [|c a IH]; [reflexivity|].
  rewrite app_cons_s.
  cbn [split_sep Strings.HasPrefix String.length Nat.pred].
  rewrite IH. destruct (Ascii.eqb c "/"); cbn [andb]; [reflexivity|].
  pose proof (split_sep_nonempty "/" 0 a).
  destruct (split_sep "/" 0 a); [congruence | reflexivity].
Qed.

Lemma split_slash_none b :
  Strings.has_byte "/" b = false → split_sep "/" 0 b = [b].
Proof.
  induction b as [|c b IH]; [reflexivity|].
  cbn [Strings.has_byte split_sep Strings.HasPrefix].
  intros [Hc Hb]%orb_false_iff. rewrite Hc. cbn [andb].
  now rewrite IH.
Qed.

Lemma has_byte_split c s :
  Strings.has_byte c s = true → ∃ a b, s = a +:+ String c b.
Proof.
  induction s as [|d s IH]; [discriminate|].
  cbn [Strings.has_byte]. intros [Hd|Hs]%orb_true_iff.
  - apply Ascii.eqb_eq in Hd as ->. now exists EmptyString, s.
  - destruct (IH Hs) as (a & b & ->). now exists (String d a), b.
Qed.

(** X9: the owner and the repository the three GitHub helpers address are
    the last two pieces of the issue's repository URL between ['/']. *)
Theorem ownerRepo_last_two_segments issues base owner repo :
  RepositoryURL issues = base +:+ "/" +:+ owner +:+ "/" +:+ repo →
  Strings.has_byte "/" owner = false →
  Strings.has_byte "/" repo = false →
  ownerRepo issues = Return (owner, repo).
Proof.
  intros Hurl Ho Hr. unfold ownerRepo, Split. rewrite Hurl.
  rewrite !split_slash_app, (split_slash_none owner), (split_slash_none repo)
    by assumption.
  rewrite !length_app. simpl length.
  replace (_ <? 2)%nat with false by (symmetry; apply Nat.ltb_ge; lia).
  rewrite lookup_app_r by lia.
  rewrite (lookup_app_r (split_sep "/" 0 base)) by lia.
  replace (_ - _ - _)%nat with 0%nat by lia.
  replace (_ - _ - _)%nat with 1%nat by lia.
  reflexivity.
Qed.


Lemma ownerRepo_last_two_segments_witness :
  ownerRepo (repoIssueOf "https://api.github.com/repos/MainPoser/gcr.io_mirror"
                         "[PORTER] gcr.io/pause:3.2")
  = Return ("MainPoser", "gcr.io_mirror").
Proof.
  apply (ownerRepo_last_two_segments _ "https://api.github.com/repos").
  - reflexivity.
  - reflexivity.
  - reflexivity.
Defined.

Lemma ownerRepo_returns issues :
  Strings.has_byte "/" (RepositoryURL issues) = true →
  ∃ owner repo, ownerRepo issues = Return (owner, repo).
Proof.
  intros (a & b & Hurl)%has_byte_split. unfold ownerRepo, Split.
  rewrite Hurl.
  change (a +:+ String "/" b) with (a +:+ "/" +:+ b).
  rewrite split_slash_app.
  pose proof (split_sep_nonempty "/" 0 a) as Ha.
  pose proof (split_sep_nonempty "/" 0 b) as Hb.
  set (names := split_sep "/" 0 a ++ split_sep "/" 0 b).
  assert (Hlen : (2 <= length names)%nat).
  { unfold names. rewrite length_app.
    destruct (split_sep "/" 0 a), (split_sep "/" 0 b); simpl; try congruence; lia. }
  replace (length names <? 2)%nat with false
    by (symmetry; apply Nat.ltb_ge; lia).
  destruct (lookup_lt_is_Some_2 names (length names - 2)) as [owner ->]; [lia|].
  destruct (lookup_lt_is_Some_2 names (length names - 1)) as [repo ->]; [lia|].
  eauto.
Qed.

Lemma bind_after_comment {A} (c : GithubCall) (k : unit → Trace A) :
  (([c], Return tt) ≫= k).1 ≠ [].
Proof.
  unfold mbind, Trace_bind. destruct (k tt) as [calls r]. discriminate.
Qed.

(** X10: an issue is answered with no call at all, the first comment
    panicking on the index [-1], exactly when its repository URL has no
    ['/']. *)
Theorem no_slash_url_panics_first {rt : GoRuntime} (d : Docker)
        order issues config :
  Strings.has_byte "/" (RepositoryURL issues) = false
  ↔ processIssue d order issues config
    = ([], Panic "runtime error: index out of range [-1]").
Proof.
  split.
  - intros Hno.
    assert (Hp : ownerRepo issues
                 = Panic "runtime error: index out of range [-1]").
    { unfold ownerRepo, Split. now rewrite split_slash_none. }
    unfold processIssue, commentIssues. rewrite Hp. reflexivity.
  - intros Hrun.
    destruct (Strings.has_byte "/" (RepositoryURL issues)) eqn:Hs;
      [|reflexivity].
    destruct (ownerRepo_returns issues Hs) as (owner & repo & Hrepo).
    assert (Hc : ∀ comment,
               commentIssues issues comment
               = ([CreateComment owner repo (Number issues) comment],
                  Return tt)).
    { intros comment. unfold commentIssues. now rewrite Hrepo. }
    unfold processIssue in Hrun. rewrite Hc in Hrun.
    match type of Hrun with
    | ([?c], Return tt) ≫= ?k = _ =>
      destruct (bind_after_comment c k (f_equal fst Hrun))
    end.
Qed.

(** ** The comments, the label and the closing of an issue *)

Section Reporting.
Context {rt : GoRuntime}.

(** X13: when the repository URL has an owner and a repository and the
    mirroring returns, the issue receives, in this order: the progress
    comment, the error as a comment if there is one, the result comment,
    the label ["success"] or ["failed"], and the closing edit. *)
Theorem processIssue_reports (d : Docker) order issues config
        owner repo err o t :
  ownerRepo issues = Return (owner, repo) →
  mirrorByIssues d order (issue issues) config = Return (err, o, t) →
  processIssue d order issues config
  = ([CreateComment owner repo (Number issues)
        ("[构建进展](https://github.com/" +:+ GhUser config +:+ "/"
           +:+ Repo config +:+ "/actions/runs/" +:+ RunId config +:+ ")")]
     ++ match err with
        | Some e => [CreateComment owner repo (Number issues) e]
        | None => []
        end
     ++ [CreateComment owner repo (Number issues)
           (resultComment
              {| Result.Success := bool_decide (err = None);
                 Result.Registry := Registry config;
                 Result.RegistryUser := RegistryUserName config;
                 Result.OriginImageName := o;
                 Result.TargetImageName := t;
                 Result.GhUser := GhUser config;
                 Result.Repo := Repo config;
                 Result.RunId := RunId config |});
         AddLabelsToIssue owner repo (Number issues)
           [if bool_decide (err = None) then "success" else "failed"];
         Edit owner repo (Number issues) "closed"],
     Return tt).
Proof.
  intros Hrepo Hrun.
  unfold processIssue, commentIssues, issuesAddLabels, issuesClose, lift.
  rewrite Hrepo, Hrun. destruct err; reflexivity.
Qed.

(** X14: when a key of the rule set is no regular expression and the
    source has no ['@'], the issue receives the progress comment only: the
    panic comes before the result comment, the label and the closing. *)
Theorem invalid_key_leaves_issue_open (d : Docker)
        (rules : gmap string string) order issues config owner repo k v :
  ownerRepo issues = Return (owner, repo) →
  rules !! k = Some v →
  Compile k = None →
  Strings.ContainsAny (originOf (issue issues)) "@" = false →
  ranges rules order →
  ∃ msg,
    processIssue d order issues config
    = ([CreateComment owner repo (Number issues)
          ("[构建进展](https://github.com/" +:+ GhUser config +:+ "/"
             +:+ Repo config +:+ "/actions/runs/" +:+ RunId config +:+ ")")],
       Panic msg).
Proof.
  intros Hrepo Hk Hbad Hat Hr.
  destruct (applyRules_Panic order (originOf (issue issues)) [])
    as (k' & _ & _ & Hloop).
  - apply Exists_exists. exists (k, v). split; [|exact Hbad].
    unfold ranges in Hr. rewrite Hr. now apply elem_of_map_to_list.
  - eexists. unfold processIssue, commentIssues, lift, mirrorByIssues, rewrite.
    rewrite Hrepo, Hat, Hloop. reflexivity.
Qed.

End Reporting.

Lemma processIssue_reports_witness :
  processIssue (rt:=AsciiRuntime) dockerOk (map_to_list defaultRules)
    (repoIssueOf "https://api.github.com/repos/MainPoser/gcr.io_mirror"
                 "[PORTER] quay.io/coreos/etcd:v3.5.0")
    (flagsConfig EmptyString "mirror" defaultRules)
  = ([CreateComment "MainPoser" "gcr.io_mirror" 7
        "[构建进展](https://github.com///actions/runs/)";
      CreateComment "MainPoser" "gcr.io_mirror" 7
        (resultComment
           {| Result.Success := true;
              Result.Registry := EmptyString;
              Result.RegistryUser := EmptyString;
              Result.OriginImageName := "quay.io/coreos/etcd:v3.5.0";
              Result.TargetImageName := "mirror/quay.coreos.etcd:v3.5.0";
              Result.GhUser := EmptyString;
              Result.Repo := EmptyString;
              Result.RunId := EmptyString |});
      AddLabelsToIssue "MainPoser" "gcr.io_mirror" 7 ["success"];
      Edit "MainPoser" "gcr.io_mirror" 7 "closed"],
     Return tt).
Proof.
  apply (processIssue_reports (rt:=AsciiRuntime) dockerOk
           (map_to_list defaultRules)
           (repoIssueOf "https://api.github.com/repos/MainPoser/gcr.io_mirror"
                        "[PORTER] quay.io/coreos/etcd:v3.5.0")
           (flagsConfig EmptyString "mirror" defaultRules)
           "MainPoser" "gcr.io_mirror" None
           "quay.io/coreos/etcd:v3.5.0" "mirror/quay.coreos.etcd:v3.5.0").
  - vm_compute. reflexivity.
  - vm_compute. reflexivity.
Defined.

Lemma invalid_key_leaves_issue_open_witness :
  ∃ msg,
    processIssue (rt:=AsciiRuntime) dockerOk
      (map_to_list ({[ "*.gcr.io" := "mirror" ]} : gmap string string))
      (repoIssueOf "https://api.github.com/repos/MainPoser/gcr.io_mirror"
                   "[PORTER] gcr.io/pause:3.2")
      (flagsConfig EmptyString "mirror" {[ "*.gcr.io" := "mirror" ]})
    = ([CreateComment "MainPoser" "gcr.io_mirror" 7
          ("[构建进展](https://github.com/" +:+ EmptyString +:+ "/"
             +:+ EmptyString +:+ "/actions/runs/" +:+ EmptyString +:+ ")")],
       Panic msg).
Proof.
  apply (invalid_key_leaves_issue_open (rt:=AsciiRuntime) dockerOk
           {[ "*.gcr.io" := "mirror" ]} _
           (repoIssueOf "https://api.github.com/repos/MainPoser/gcr.io_mirror"
                        "[PORTER] gcr.io/pause:3.2")
           (flagsConfig EmptyString "mirror" {[ "*.gcr.io" := "mirror" ]})
           "MainPoser" "gcr.io_mirror" "*.gcr.io" "mirror").
  - vm_compute. reflexivity.
  - vm_compute. reflexivity.
  - vm_compute. reflexivity.
  - vm_compute. reflexivity.
  - unfold ranges. reflexivity.
Defined.

(** ** The result comment *)

Lemma replace_caret (t : string) :
  Strings.ReplaceAll t "^" "`" = map_bytes caret_to_backquote t.
Proof.
  change (Strings.ReplaceAll t "^" "`")
    with (Strings.replace_old "^" "`" None 0 t).
  induction t as [|c r IH]; [reflexivity|].
  cbn [Strings.replace_old map_bytes Strings.exhausted Strings.spend
       Strings.HasPrefix negb andb String.length Nat.pred].
  unfold caret_to_backquote at 1.
  destruct (Ascii.eqb c "^"); cbn [andb];
    rewrite ?app_cons_s, ?app_nil_l_s, IH; reflexivity.
Qed.

Lemma map_bytes_app f a b :
  map_bytes f (a +:+ b) = map_bytes f a +:+ map_bytes f b.
Proof.
  induction a as [|c a IH]; [reflexivity|].
  rewrite app_cons_s. simpl. now rewrite IH, app_cons_s.
Qed.

Lemma map_bytes_cat f pieces :
  map_bytes f (cat pieces) = cat (map (map_bytes f) pieces).
Proof.
  induction pieces as [|p pieces IH]; [reflexivity|].
  unfold cat in *. simpl. now rewrite map_bytes_app, IH.
Qed.

Lemma caret_free s :
  Strings.has_byte "^" s = false → map_bytes caret_to_backquote s = s.
Proof.
  induction s as [|c s IH]; [reflexivity|].
  cbn [Strings.has_byte map_bytes]. intros [Hc Hs]%orb_false_iff.
  rewrite IH by exact Hs. unfold caret_to_backquote. now rewrite Hc.
Qed.

(** X11: the result comment holds no ['^'], whatever the fields of the
    result are. *)
Theorem resultComment_has_no_caret r :
  Strings.has_byte "^" (resultComment r) = false.
Proof.
  unfold resultComment. rewrite replace_caret.
  induction (executeResultTpl r) as [|c s IH]; [reflexivity|].
  cbn [map_bytes Strings.has_byte]. rewrite IH, orb_false_r.
  unfold caret_to_backquote.
  destruct (Ascii.eqb c "^") eqn:Hc; [reflexivity | exact Hc].
Qed.

(** X12: when no field of the result holds a ['^'], the result comment is
    the template with its values and with each code fence turned into
    three backquotes: nothing else is changed. *)
Theorem resultComment_keeps_caret_free_fields r :
  Forall (λ field, Strings.has_byte "^" field = false)
         [Result.Registry r; Result.RegistryUser r; Result.OriginImageName r;
          Result.TargetImageName r; Result.GhUser r; Result.Repo r;
          Result.RunId r] →
  resultComment r = resultTplWith "```" r.
Proof.
  intros Hall. repeat (apply Forall_cons in Hall as [?%caret_free Hall]).
  unfold resultComment, executeResultTpl, resultTplWith.
  rewrite replace_caret.
  destruct (Result.Success r);
    [destruct (0 <? String.length (Result.Registry r))%nat|];
    repeat (rewrite map_bytes_cat; cbn [map]);
    repeat match goal with H : map_bytes _ _ = _ |- _ => rewrite !H; clear H end;
    reflexivity.
Qed.

Lemma resultComment_keeps_caret_free_fields_witness :
  resultComment
    {| Result.Success := true; Result.Registry := "registry.example.com";
       Result.RegistryUser := "porter";
       Result.OriginImageName := "gcr.io/pause:3.2";
       Result.TargetImageName := "registry.example.com/mirror/pause:3.2";
       Result.GhUser := "MainPoser"; Result.Repo := "gcr.io_mirror";
       Result.RunId := "42" |}
  = resultTplWith "```"
    {| Result.Success := true; Result.Registry := "registry.example.com";
       Result.RegistryUser := "porter";
       Result.OriginImageName := "gcr.io/pause:3.2";
       Result.TargetImageName := "registry.example.com/mirror/pause:3.2";
       Result.GhUser := "MainPoser"; Result.Repo := "gcr.io_mirror";
       Result.RunId := "42" |}.
Proof.
  apply resultComment_keeps_caret_free_fields.
  repeat constructor.
Defined.

(** ** [src/pull-k8s-image.sh]: the name the script pulls *)




















(** ** The shape of the results, and the rules file *)

Section RewriteShape.
Context {rt : GoRuntime}.


(** X18: the result is Rejected exactly when the origin image name holds
    an ['@'], for every rule set and every order. *)
Theorem Rejected_iff_digest order config issues :
  Strings.ContainsAny (originOf issues) "@" = true
  ↔ ∃ err o t, rewrite order config issues = Return (Rejected err o t).
Proof.
  unfold rewrite. split.
  - intros ->. eauto.
  - intros (err & o & t & Hrun).
    destruct (Strings.ContainsAny (originOf issues) "@"); [reflexivity|].
    destruct (applyRules order (originOf issues) []) as [[target regs]|];
      [|discriminate].
    destruct (EqualFold target (originOf issues)); discriminate.
Qed.

End RewriteShape.


(** X19: the rule set of a run depends on what the file at the constant
    path ["rules.yaml"] holds, and on nothing else: not on the flags --
    the path given with [--rules.file] among them -- and not on any
    other file. *)
Theorem rules_depend_on_one_file files files' config config' :
  files RulesFileConst = files' RulesFileConst →
  Rules (configureRules files config) = Rules (configureRules files' config').
Proof.
  intros Hsame. unfold configureRules. cbn [Rules]. now rewrite Hsame.
Qed.

Lemma rules_depend_on_one_file_witness :
  Rules (configureRules
           (λ path, if String.eqb path "rules.yaml" then ReadFailed
                    else Unmarshalled {[ "^example.com" := "example" ]})
           {| GhToken := EmptyString; GhUser := EmptyString;
              Repo := EmptyString; Registry := EmptyString;
              RegistryNamespace := EmptyString;
              RegistryUserName := EmptyString;
              RegistryPassword := EmptyString; Rules := ∅;
              RunId := EmptyString; MaxCount := 1;
              RulesFile := "mine.yaml" |})
  = Rules (configureRules (λ _, ReadFailed)
                          (flagsConfig EmptyString "mirror" ∅)).
Proof.
  apply rules_depend_on_one_file. reflexivity.
Defined.
